(** * The autocompletion engine of firebolt-cli

    A shallow embedding of [src/firebolt_cli/completer.py]: the tokenizer
    [extract_last_word], the renderer [prepare_display_html], and the class
    [FireboltAutoCompleter] with its constructor, its metadata loader
    [populate_table_and_column_names] and its matcher [get_completions].

    Conventions of the embedding.
    - A Python [str] is a sequence of Unicode code points: [str := list N].
      [lit] turns an ASCII literal of the source into such a sequence.
    - [str.upper] maps every code point through the full upper-case mapping of
      the Unicode character database and concatenates the images (one code
      point may give several: U+00DF gives "SS").  That table is not part of
      the repository; it is the field [upper_char] of the class [Python],
      and the closed examples run with [py_upper_char].
    - [list(set(...))] yields the distinct elements in an order the language
      does not fix; the field [set_to_list] of [Python] stands for it.
    - [KEYWORDS] and [FUNCTIONS] come from [firebolt_cli/keywords.py]; they
      are the fields of the class [Keywords], in their iteration order.
    - The object attributes live in the record [FireboltAutoCompleter];
      the loader is a computation in a state-and-exception monad over it.
    - [HTML(value)] of prompt_toolkit parses [value] as XML and raises when
      it is not well-formed; the object it returns holds [value].  The
      parser is not part of the repository: its verdict is the field
      [xml_well_formed] of the class [PromptToolkit], and the closed
      examples run with [demo_well_formed].
    - [get_completions] is a generator: a call is modelled by what it
      yields until it is exhausted or raises, and by how it ends. *)

From Stdlib Require Import List ZArith NArith Bool Lia.
From Stdlib Require Import Strings.String Strings.Ascii.
Import ListNotations.

Open Scope Z_scope.

(** ** Python strings *)

Definition char := N.
Definition str := list char.

(** An ASCII literal of the source text as a sequence of code points. *)
Definition lit (s : string) : str := map N_of_ascii (list_ascii_of_string s).

Definition char_eqb (a b : char) : bool := N.eqb a b.

Definition str_eq_dec : forall a b : str, {a = b} + {a <> b} :=
  list_eq_dec N.eq_dec.

(** [len(s)] *)
Definition len (s : str) : Z := Z.of_nat (List.length s).

(** [s.startswith(prefix)] *)
Fixpoint startswith (s prefix : str) {struct prefix} : bool :=
  match prefix with
  | [] => true
  | p :: prefix' =>
      match s with
      | [] => false
      | c :: s' => char_eqb c p && startswith s' prefix'
      end
  end.

(** [sub in text]: [sub] occurs somewhere in [text]. *)
Fixpoint str_in (sub text : str) : bool :=
  startswith text sub ||
  match text with
  | [] => false
  | _ :: rest => str_in sub rest
  end.

(** [text.rfind(sub)], counting positions from [i]: the highest index at
    which [sub] starts, or -1. *)
Fixpoint rfind_from (i : Z) (text sub : str) : Z :=
  match text with
  | [] => if startswith [] sub then i else -1
  | _ :: rest =>
      let r := rfind_from (i + 1) rest sub in
      if 0 <=? r then r
      else if startswith text sub then i else -1
  end.

Definition rfind (text sub : str) : Z := rfind_from 0 text sub.

(** [text[i:]] and [text[:i]], with Python's treatment of a negative index
    (counted from the end) and of an index past the end (clipped). *)
Definition clip_index (text : str) (i : Z) : nat :=
  Z.to_nat (if i <? 0 then Z.max 0 (len text + i) else i).

Definition slice_from (text : str) (i : Z) : str := skipn (clip_index text i) text.
Definition slice_to (text : str) (i : Z) : str := firstn (clip_index text i) text.

(** [text.replace(old, new)] for a one-character [old], which is how both
    calls of the source use it. *)
Definition replace (text : str) (old : char) (new : str) : str :=
  flat_map (fun c => if char_eqb c old then new else [c]) text.

(** [max(l)] of a list of integers.  Python raises ValueError on an empty
    list; the only call passes one entry per delimiter (Lemma
    [rfind_positions_nonempty]), and the model gives -1 there. *)
Definition py_max (l : list Z) : Z :=
  match l with
  | [] => -1
  | x :: xs => fold_left Z.max xs x
  end.

(** [s.upper()]: every code point is replaced by its image under the
    upper-case table, the images concatenated. *)
Definition str_upper (upper_char : char -> str) (s : str) : str :=
  flat_map upper_char s.

(** The upper-case table on the code points below 256 (ASCII and the
    Latin-1 supplement), as Python computes it there; a code point from 256
    on is returned as it is, which is not claimed to be Python's answer.  It
    is used only to run the model on concrete texts below 256. *)
Definition py_upper_char (c : char) : str :=
  if (97 <=? c)%N && (c <=? 122)%N then [(c - 32)%N]
  else if (c =? 181)%N then [924%N]
  else if (c =? 223)%N then [83%N; 83%N]
  else if (224 <=? c)%N && (c <=? 254)%N && negb (c =? 247)%N then [(c - 32)%N]
  else if (c =? 255)%N then [376%N]
  else [c].

(** ** The environment of the class *)

(** What the Python runtime provides and the repository does not define. *)
Class Python := {
  upper_char : char -> str;
  set_to_list : list str -> list str
}.

(** [firebolt_cli/keywords.py] *)
Class Keywords := {
  KEYWORDS : list str;
  FUNCTIONS : list str
}.

(** The runtime's tables behave as Python documents them: an upper-cased
    code point is never the empty string, and [list(set(l))] holds every
    member of [l] once. *)
Class PythonLaws (P : Python) : Prop := {
  upper_char_nonempty : forall c, upper_char c <> [];
  set_to_list_NoDup : forall l, NoDup (set_to_list l);
  set_to_list_In : forall l x, In x (set_to_list l) <-> In x l
}.

(** Exceptions, as far as the [except FireboltError] clause tells them apart. *)
Inductive exn : Type :=
| FireboltError
| OtherException.

Inductive result (A : Type) : Type :=
| Return (a : A)
| Raise (e : exn).
Arguments Return {A} a.
Arguments Raise {A} e.

(** [prompt_toolkit.HTML]: the verdict of its XML parser on the text it
    is given. *)
Class PromptToolkit := {
  xml_well_formed : str -> bool
}.

(** [HTML(value)]: the object holds [value]; a text that is not
    well-formed makes the constructor raise (an [ExpatError], which is not
    a [FireboltError]). *)
Definition HTML {T : PromptToolkit} (value : str) : result str :=
  if xml_well_formed value then Return value else Raise OtherException.

(** A generator run to its end: what it yielded, and whether the iteration
    ended by exhaustion or by an exception. *)
Definition Generator (A : Type) : Type := (list A * result unit)%type.

(** A [for] loop whose body yields some items or raises: the items of the
    turns before the first that raises are yielded. *)
Fixpoint for_each {A B : Type} (body : A -> result (list B)) (l : list A)
  : Generator B :=
  match l with
  | [] => ([], Return tt)
  | x :: rest =>
      match body x with
      | Raise e => ([], Raise e)
      | Return items =>
          let (more, ending) := for_each body rest in (items ++ more, ending)
      end
  end.

(** A row of [information_schema.columns]:
    [(table_name, column_name, data_type)]. *)
Definition row : Type := str * str * str.

(** [firebolt.db.Cursor]: what [execute] and [fetchall] do when called. *)
Record Cursor := {
  execute : str -> result unit;
  fetchall : result (list row)
}.

(** [prompt_toolkit.document.Document] *)
Record Document := {
  text : str;
  cursor_position : Z
}.

Definition text_before_cursor (document : Document) : str :=
  slice_to (text document) (cursor_position document).

(** [prompt_toolkit.completion.Completion] *)
Record Completion := {
  completion_text : str;
  start_position : Z;
  display : str;
  display_meta : str
}.

(** The attributes of a [FireboltAutoCompleter] object. *)
Record FireboltAutoCompleter := {
  column_names : list row;
  suggestions : list (str * str)
}.

(** ** State and exceptions *)

Definition M (A : Type) : Type :=
  FireboltAutoCompleter -> result A * FireboltAutoCompleter.

Definition ret {A} (a : A) : M A := fun self => (Return a, self).

Definition raise {A} (e : exn) : M A := fun self => (Raise e, self).

Definition bind {A B} (m : M A) (k : A -> M B) : M B :=
  fun self =>
    match m self with
    | (Return a, self') => k a self'
    | (Raise e, self') => (Raise e, self')
    end.

Notation "x <- m ;; k" := (bind m (fun x => k))
  (at level 61, m at next level, right associativity).
Notation "m ;;; k" := (bind m (fun _ => k))
  (at level 61, right associativity).

(** A call into a collaborator that returns or raises. *)
Definition call {A} (r : result A) : M A := fun self => (r, self).

Definition read {A} (attr : FireboltAutoCompleter -> A) : M A :=
  fun self => (Return (attr self), self).

(** [self.column_names = data] *)
Definition assign_column_names (data : list row) : M unit :=
  fun self =>
    (Return tt, {| column_names := data; suggestions := suggestions self |}).

(** [self.suggestions.extend(items)] *)
Definition suggestions_extend (items : list (str * str)) : M unit :=
  fun self =>
    (Return tt, {| column_names := column_names self;
                   suggestions := suggestions self ++ items |}).

(** [try: body except FireboltError: pass]: what [body] wrote before it
    raised stays written. *)
Definition try_except_FireboltError (body : M unit) : M unit :=
  fun self =>
    match body self with
    | (Raise FireboltError, self') => (Return tt, self')
    | other => other
    end.

(** ** completer.py, lines 13-30 *)

(** The text of the f-string of lines 18-19. *)
Definition markup (text : str) (offset : Z) : str :=
  lit "<b><style color='red'>" ++ slice_to text offset ++ lit "</style></b>"
  ++ replace (replace (slice_from text offset) 60%N (lit "&#60;")) 62%N (lit "&#62;").

Definition prepare_display_html {T : PromptToolkit} (text : str) (offset : Z)
  : result str :=
  HTML (markup text offset).

Definition delimiters : list str :=
  [lit " "; lit ","; [10%N]; lit ")"; lit ";"; lit "("; lit "."].

Definition extract_last_word (text : str) : str :=
  let last_position := py_max (map (fun d => rfind text d) delimiters) in
  slice_from text (last_position + 1).

(** The code points of the seven delimiters. *)
Definition delimiter_chars : list char := [32; 44; 10; 41; 59; 40; 46]%N.

Definition is_delimiter (c : char) : bool := existsb (char_eqb c) delimiter_chars.


(** ** completer.py, lines 33-102 *)

Section Completer.
Context {P : Python} {K : Keywords} {T : PromptToolkit}.

Definition upper (s : str) : str := str_upper upper_char s.

(** The catalog built by lines 44-46. *)
Definition static_suggestions : list (str * str) :=
  map (fun keyword => (keyword, lit "KEYWORD")) KEYWORDS
  ++ map (fun function => (function, lit "FUNCTION")) FUNCTIONS.

(** [__init__], up to the start of the thread that runs
    [populate_table_and_column_names]. *)
Definition __init__ : FireboltAutoCompleter :=
  {| column_names := []; suggestions := [] ++ static_suggestions |}.

Definition metadata_query : str :=
  lit "SELECT table_name, column_name, data_type "
  ++ lit "FROM information_schema.columns".

Definition tb_name (d : row) : str := fst (fst d).
Definition column_name (d : row) : str := snd (fst d).
Definition column_type (d : row) : str := snd d.

Definition populate_table_and_column_names (cursor : Cursor) : M unit :=
  try_except_FireboltError
    (call (execute cursor metadata_query) ;;;
     data <- call (fetchall cursor) ;;
     assign_column_names data ;;;
     let table_names := set_to_list (map tb_name data) in
     suggestions_extend (map (fun table_name => (table_name, lit "TABLE")) table_names)).

(** The [COLUMN] entries of lines 87-89. *)
Definition column_suggestions (self : FireboltAutoCompleter) (document : Document)
  : list (str * str) :=
  map (fun d => (column_name d,
                 lit "COLUMN (" ++ column_type d ++ lit ", " ++ tb_name d ++ lit ")"))
      (filter (fun d => str_in (tb_name d) (text document)) (column_names self)).

(** [current_suggestions] of line 86. *)
Definition current_suggestions (self : FireboltAutoCompleter) (document : Document)
  : list (str * str) :=
  suggestions self ++ column_suggestions self document.

(** One turn of the loop of lines 93-102: nothing is yielded, or one
    completion is, or the call of [prepare_display_html] raises. *)
Definition loop_body (last_word : str) (offset : Z) (s : str * str)
  : result (list Completion) :=
  let (label, meta) := s in
  if negb (startswith (upper label) last_word) then Return []
  else
    match prepare_display_html label offset with
    | Raise e => Raise e
    | Return html =>
        Return [ {| completion_text := label;
                    start_position := - offset;
                    display := html;
                    display_meta := meta |} ]
    end.

(** [get_completions], iterated to its end on the object [self]: the
    completions yielded, the way the iteration ended, and the object. *)
Definition get_completions (document : Document) (self : FireboltAutoCompleter)
  : Generator Completion * FireboltAutoCompleter :=
  let last_word := upper (extract_last_word (text_before_cursor document)) in
  if len last_word =? 0 then (([], Return tt), self)
  else
    let offset := len last_word in
    (for_each (loop_body last_word offset) (current_suggestions self document), self).

End Completer.

(** ** Concrete environments, to run the model *)

(** The upper-case table below 256 and one of the orders a set may be
    listed in (first occurrences, in order). *)
Definition py_runtime : Python :=
  {| upper_char := py_upper_char; set_to_list := nodup str_eq_dec |}.

(** A short stand-in for [keywords.py]. *)
Definition demo_keywords : Keywords :=
  {| KEYWORDS := [lit "SELECT"; lit "USE"; lit "UPDATE"];
     FUNCTIONS := [lit "UPPER"; lit "ABS"] |}.

(** A character XML allows in text (tab, line feed, carriage return, and
    from U+0020 on), kept here below the surrogates. *)
Definition xml_char (c : char) : bool :=
  ((c =? 9)%N || (c =? 10)%N || (c =? 13)%N || (32 <=? c)%N) && (c <? 55296)%N.

(** [s] without the prefix [p], when it starts with it. *)
Fixpoint strip_prefix (p s : str) : option str :=
  match p with
  | [] => Some s
  | x :: p' =>
      match s with
      | [] => None
      | c :: s' => if char_eqb c x then strip_prefix p' s' else None
      end
  end.

(** The text up to the first [<], and what starts there. *)
Fixpoint span_text (s : str) : str * str :=
  match s with
  | [] => ([], [])
  | c :: s' =>
      if char_eqb c 60%N then ([], s)
      else let (a, b) := span_text s' in (c :: a, b)
  end.

(** Character data: allowed characters, no [<], and [&] only at the head
    of one of the two references [prepare_display_html] writes. *)
Fixpoint char_data (s : str) : bool :=
  match s with
  | [] => true
  | c :: s' =>
      if char_eqb c 38%N
      then (startswith s' (lit "#60;") || startswith s' (lit "#62;")) && char_data s'
      else xml_char c && negb (char_eqb c 60%N) && char_data s'
  end.

(** A stand-in for the parser on the texts [prepare_display_html] builds:
    the two opening tags, character data, the two closing tags, character
    data, with no "]]>" in either.  What it accepts is well-formed; it
    refuses a label that brings tags or references of its own, even
    well-formed ones, and code points from U+D800 on.  The closed examples
    use labels on which it gives the parser's verdict. *)
Definition demo_well_formed (value : str) : bool :=
  match strip_prefix (lit "<b><style color='red'>") value with
  | None => false
  | Some inside =>
      let (emphasised, closing) := span_text inside in
      match strip_prefix (lit "</style></b>") closing with
      | None => false
      | Some rest =>
          char_data emphasised && negb (str_in (lit "]]>") emphasised)
          && char_data rest && negb (str_in (lit "]]>") rest)
      end
  end.

Definition demo_toolkit : PromptToolkit :=
  {| xml_well_formed := demo_well_formed |}.

(** A cursor whose query succeeds with the rows [data]. *)
Definition cursor_returning (data : list row) : Cursor :=
  {| execute := fun _ => Return tt; fetchall := Return data |}.

(** A cursor whose [execute] raises [e]. *)
Definition cursor_raising (e : exn) : Cursor :=
  {| execute := fun _ => Raise e; fetchall := Return [] |}.

(** What lines 58-63 obtain from the cursor: the rows, or the exception of
    [execute] or of [fetchall]. *)
Definition query_outcome (cursor : Cursor) (query : str) : result (list row) :=
  match execute cursor query with
  | Return _ => fetchall cursor
  | Raise e => Raise e
  end.

(** The object once the loader thread has finished, whatever its outcome. *)
Definition after_load {P : Python} {K : Keywords} (cursor : Cursor)
  : FireboltAutoCompleter :=
  snd (populate_table_and_column_names cursor __init__).

(** The [TABLE] entries for a list of table names. *)
Definition table_suggestions (tables : list str) : list (str * str) :=
  map (fun table_name => (table_name, lit "TABLE")) tables.

(** The states of the object that a call of [get_completions] can find
    in a session: the constructed object; the object while the loader,
    having assigned the rows fetched (line 64), appends the TABLE entries
    one after the other (line 67), [done] being those appended so far; and
    the object after the one run of the loader. *)
Inductive session_state {P : Python} {K : Keywords} : FireboltAutoCompleter -> Prop :=
| session_constructed : session_state __init__
| session_loading (cursor : Cursor) (data : list row) (done rest : list str) :
    query_outcome cursor metadata_query = Return data ->
    set_to_list (map tb_name data) = done ++ rest ->
    session_state {| column_names := data;
                     suggestions := suggestions __init__ ++ table_suggestions done |}
| session_loaded (cursor : Cursor) : session_state (after_load cursor).

(** The completions a call yields, and the way its iteration ends. *)
Definition completions_of {P : Python} {K : Keywords} {T : PromptToolkit}
  (self : FireboltAutoCompleter) (document : Document) : list Completion :=
  fst (fst (get_completions document self)).

Definition ending_of {P : Python} {K : Keywords} {T : PromptToolkit}
  (self : FireboltAutoCompleter) (document : Document) : result unit :=
  snd (fst (get_completions document self)).

(** A document with the cursor at the end of its text. *)
Definition document_at_end (t : str) : Document :=
  {| text := t; cursor_position := len t |}.

(** The word the matcher works with, and the test of line 94. *)
Definition current_word (document : Document) : str :=
  extract_last_word (text_before_cursor document).

Definition matches {P : Python} (last_word : str) (s : str * str) : bool :=
  startswith (upper (fst s)) last_word.

(** The completion built by lines 97-102 when [HTML] returns. *)
Definition render (offset : Z) (s : str * str) : Completion :=
  {| completion_text := fst s;
     start_position := - offset;
     display := markup (fst s) offset;
     display_meta := snd s |}.

(** [HTML] accepts the display of the candidate [s]. *)
Definition accepted {T : PromptToolkit} (offset : Z) (s : str * str) : bool :=
  xml_well_formed (markup (fst s) offset).

(** The items of a list before the first that fails a test. *)
Fixpoint take_while {A : Type} (f : A -> bool) (l : list A) : list A :=
  match l with
  | [] => []
  | x :: rest => if f x then x :: take_while f rest else []
  end.

(** [HTML] accepts the display of every keyword and function name, at
    every offset: what holds when [keywords.py] lists plain identifiers. *)
Definition static_labels_accepted {K : Keywords} {T : PromptToolkit} : Prop :=
  forall s offset, In s static_suggestions -> accepted offset s = true.

(** The candidate universe as the specification words it: the static
    catalog followed by the column suggestions, nothing else. *)
Definition spec_universe {P : Python} {K : Keywords}
  (self : FireboltAutoCompleter) (document : Document) : list (str * str) :=
  static_suggestions ++ column_suggestions self document.

(** The completions the specification's universe would give. *)
Definition spec_completions {P : Python} {K : Keywords}
  (self : FireboltAutoCompleter) (document : Document) : list Completion :=
  let last_word := upper (current_word document) in
  if len last_word =? 0 then []
  else map (render (len last_word))
           (filter (matches last_word) (spec_universe self document)).

(** Rows used in the examples. *)
Definition users_rows : list row := [(lit "users", lit "id", lit "int")].

(** A column whose name holds a [>]. *)
Definition markup_rows : list row := [(lit "t", lit "a>b", lit "int")].

(** A column whose name holds an [&]. *)
Definition ampersand_rows : list row := [(lit "t", lit "a&b", lit "int")].

(** A table whose name holds an [&]. *)
Definition ampersand_table_rows : list row := [(lit "r&d", lit "id", lit "int")].

(** A column that the word U+00DF reaches once upper-cased. *)
Definition sharp_s_rows : list row := [(lit "t", lit "ssn", lit "text")].

(** [text] after both replacements of [prepare_display_html]. *)
Definition escape (t : str) : str :=
  replace (replace t 60%N (lit "&#60;")) 62%N (lit "&#62;").

(** * Properties *)

(** ** Strings *)

Lemma char_eqb_eq (a b : char) : char_eqb a b = true <-> a = b.
Proof. apply N.eqb_eq. Qed.

Lemma startswith_app (p r : str) : startswith (p ++ r) p = true.
Proof.
induction p as [|c p IH]; simpl; [reflexivity|].
unfold char_eqb; now rewrite N.eqb_refl.
Qed.

Lemma startswith_iff (s p : str) :
  startswith s p = true <-> exists r, s = p ++ r.
Proof.
split.
- revert s; induction p as [|c p IH]; intros s H.
  + now exists s.
  + destruct s as [|x s]; simpl in H; [discriminate|].
    apply andb_true_iff in H as [Hx Hs].
    apply char_eqb_eq in Hx; subst x.
    destruct (IH _ Hs) as [r ->]. now exists r.
- intros [r ->]. apply startswith_app.
Qed.

Lemma str_in_iff (sub t : str) :
  str_in sub t = true <-> exists pre post, t = pre ++ sub ++ post.
Proof.
split.
- induction t as [|c t IH]; simpl; intros H.
  + rewrite orb_false_r in H. apply startswith_iff in H as [r Hr].
    now exists [], r.
  + apply orb_true_iff in H as [H|H].
    * apply startswith_iff in H as [r Hr]. now exists [], r.
    * destruct (IH H) as (pre & post & ->). now exists (c :: pre), post.
- intros (pre & post & ->).
  induction pre as [|c pre IH].
  + destruct (sub ++ post) eqn:E; simpl.
    * destruct sub; [reflexivity | discriminate].
    * rewrite <- E. change (startswith (sub ++ post) sub || str_in sub l = true).
      now rewrite startswith_app.
  + simpl. change (str_in sub (pre ++ sub ++ post)) with (str_in sub (pre ++ sub ++ post)).
    rewrite IH. apply orb_true_r.
Qed.

Lemma len_app (a b : str) : len (a ++ b) = len a + len b.
Proof. unfold len. rewrite length_app. lia. Qed.

Lemma len_cons (c : char) (s : str) : len (c :: s) = len s + 1.
Proof. unfold len. cbn [List.length]. lia. Qed.

Lemma len_nonneg (s : str) : 0 <= len s.
Proof. unfold len. lia. Qed.

Lemma len_zero_iff (s : str) : len s = 0 <-> s = [].
Proof.
unfold len. destruct s; simpl; split; intros H; try reflexivity; try discriminate; lia.
Qed.

Lemma slice_from_app (pre suf : str) : slice_from (pre ++ suf) (len pre) = suf.
Proof.
unfold slice_from, clip_index.
destruct (Z.ltb_spec (len pre) 0) as [H|_]; [pose proof (len_nonneg pre); lia|].
unfold len. rewrite Nat2Z.id.
induction pre; simpl; auto.
Qed.

Lemma slice_to_app (pre suf : str) : slice_to (pre ++ suf) (len pre) = pre.
Proof.
unfold slice_to, clip_index.
destruct (Z.ltb_spec (len pre) 0) as [H|_]; [pose proof (len_nonneg pre); lia|].
unfold len. rewrite Nat2Z.id.
induction pre; simpl; [reflexivity | now f_equal].
Qed.

Lemma slice_to_end (t : str) : slice_to t (len t) = t.
Proof. rewrite <- (app_nil_r t) at 1. apply slice_to_app. Qed.

Lemma text_before_cursor_at_end (t : str) :
  text_before_cursor (document_at_end t) = t.
Proof. apply slice_to_end. Qed.

(** ** The tokenizer *)

Lemma delimiters_chars : delimiters = map (fun c => [c]) delimiter_chars.
Proof. reflexivity. Qed.

Lemma rfind_positions_nonempty (t : str) :
  map (fun d => rfind t d) delimiters <> [].
Proof. discriminate. Qed.

Lemma is_delimiter_In (c : char) : is_delimiter c = true <-> In c delimiter_chars.
Proof.
unfold is_delimiter. rewrite existsb_exists. split.
- intros (x & Hx & E). apply char_eqb_eq in E. now subst.
- intros H. exists c. split; [assumption | now apply char_eqb_eq].
Qed.

Lemma rfind_from_char_absent (d : char) (t : str) (i : Z) :
  ~ In d t -> rfind_from i t [d] = -1.
Proof.
revert i; induction t as [|c t IH]; intros i H; simpl; [reflexivity|].
rewrite IH by (intros F; apply H; now right). simpl.
destruct (char_eqb c d) eqn:E; [|reflexivity].
apply char_eqb_eq in E. exfalso. apply H. now left.
Qed.

Lemma rfind_from_char_last (d : char) (pre suf : str) (i : Z) :
  0 <= i -> ~ In d suf -> rfind_from i (pre ++ d :: suf) [d] = i + len pre.
Proof.
revert i; induction pre as [|c pre IH]; intros i Hi H.
- simpl. rewrite rfind_from_char_absent by assumption. simpl.
  unfold char_eqb. rewrite N.eqb_refl. unfold len; simpl; lia.
- cbn [app rfind_from]. rewrite IH by (assumption || lia).
  pose proof (len_nonneg pre).
  destruct (Z.leb_spec 0 (i + 1 + len pre)); [|lia].
  rewrite len_cons; lia.
Qed.

Lemma rfind_from_char_le (d c : char) (pre suf : str) (i : Z) :
  0 <= i -> ~ In d suf -> rfind_from i (pre ++ c :: suf) [d] <= i + len pre.
Proof.
revert i; induction pre as [|x pre IH]; intros i Hi H.
- simpl. rewrite rfind_from_char_absent by assumption. simpl.
  unfold len; simpl. destruct (char_eqb c d); simpl; lia.
- cbn [app rfind_from].
  specialize (IH (i + 1) ltac:(lia) H).
  pose proof (len_nonneg pre).
  rewrite len_cons.
  destruct (Z.leb_spec 0 (rfind_from (i + 1) (pre ++ c :: suf) [d])); [lia|].
  destruct (startswith _ _); lia.
Qed.

Lemma fold_left_max_spec (xs : list Z) (a : Z) :
  In (fold_left Z.max xs a) (a :: xs) /\
  forall y, In y (a :: xs) -> y <= fold_left Z.max xs a.
Proof.
revert a; induction xs as [|x xs IH]; intros a; simpl.
- split; [now left|]. intros y [->|[]]; lia.
- destruct (IH (Z.max a x)) as [Hin Hle]. split.
  + destruct Hin as [E|Hin]; [|now right; right].
    rewrite <- E. destruct (Z.max_spec a x) as [[_ ->]|[_ ->]]; [right; now left | now left].
  + intros y Hy.
    assert (Z.max a x <= fold_left Z.max xs (Z.max a x)) by (apply Hle; now left).
    destruct Hy as [->|[->|Hy]]; [lia | lia |].
    apply Hle. now right.
Qed.

Lemma py_max_eq (l : list Z) (m : Z) :
  In m l -> (forall y, In y l -> y <= m) -> py_max l = m.
Proof.
destruct l as [|x xs]; [intros []|]. intros Hin Hle. unfold py_max.
destruct (fold_left_max_spec xs x) as [H1 H2].
apply Z.le_antisymm; [now apply Hle | now apply H2].
Qed.

Lemma rfind_positions (t : str) :
  map (fun d => rfind t d) delimiters = map (fun c => rfind t [c]) delimiter_chars.
Proof. reflexivity. Qed.

Lemma delimiter_free_not_In (suf : str) (d : char) :
  (forall c, In c suf -> is_delimiter c = false) -> is_delimiter d = true -> ~ In d suf.
Proof. intros Hs Hd F. apply Hs in F. congruence. Qed.

(** Every text is free of delimiters or splits at its last delimiter. *)
Lemma last_delimiter_split (t : str) :
  (forall c, In c t -> is_delimiter c = false) \/
  exists pre d suf, t = pre ++ d :: suf /\ is_delimiter d = true /\
                    forall c, In c suf -> is_delimiter c = false.
Proof.
induction t as [|x t IH].
- left. intros c [].
- destruct IH as [Hfree | (pre & d & suf & -> & Hd & Hsuf)].
  + destruct (is_delimiter x) eqn:Hx.
    * right. exists [], x, t. auto.
    * left. intros c [<-|Hc]; auto.
  + right. exists (x :: pre), d, suf. auto.
Qed.

Lemma extract_last_word_no_delimiter (t : str) :
  (forall c, In c t -> is_delimiter c = false) -> extract_last_word t = t.
Proof.
intros Hfree. unfold extract_last_word.
rewrite rfind_positions.
rewrite (py_max_eq _ (-1)).
- reflexivity.
- left. apply rfind_from_char_absent.
  apply delimiter_free_not_In; [assumption | reflexivity].
- intros y Hy. apply in_map_iff in Hy as (c & <- & Hc).
  unfold rfind. rewrite rfind_from_char_absent; [lia|].
  apply delimiter_free_not_In; [assumption | now apply is_delimiter_In].
Qed.

Lemma extract_last_word_after_delimiter (pre suf : str) (d : char) :
  is_delimiter d = true ->
  (forall c, In c suf -> is_delimiter c = false) ->
  extract_last_word (pre ++ d :: suf) = suf.
Proof.
intros Hd Hsuf. unfold extract_last_word.
rewrite rfind_positions.
rewrite (py_max_eq _ (len pre)).
- replace (pre ++ d :: suf) with ((pre ++ [d]) ++ suf) by (rewrite <- app_assoc; reflexivity).
  replace (len pre + 1) with (len (pre ++ [d])) by (rewrite len_app; reflexivity).
  apply slice_from_app.
- apply in_map_iff. exists d. split; [|now apply is_delimiter_In].
  unfold rfind. rewrite rfind_from_char_last; [lia | lia |].
  now apply delimiter_free_not_In.
- intros y Hy. apply in_map_iff in Hy as (c & <- & Hc).
  unfold rfind.
  pose proof (rfind_from_char_le c d pre suf 0) as L.
  simpl in L. apply L; [lia|].
  apply delimiter_free_not_In; [assumption | now apply is_delimiter_In].
Qed.

(** C4.  [extract_last_word] returns what follows the rightmost delimiter
    of the text (space, comma, newline, close-paren, semicolon, open-paren,
    period), wherever in the text it stands, and the whole text when it has
    no delimiter; it gives "b" on "SELECT a, b" and "" on "SELECT ". *)
Theorem extract_last_word_rightmost_delimiter (t : str) :
  ((forall c, In c t -> is_delimiter c = false) -> extract_last_word t = t) /\
  (forall pre d suf,
      t = pre ++ d :: suf -> is_delimiter d = true ->
      (forall c, In c suf -> is_delimiter c = false) ->
      extract_last_word t = suf) /\
  delimiter_chars = map N_of_ascii [" "; ","; "010"; ")"; ";"; "("; "."]%char /\
  extract_last_word (lit "SELECT a, b") = lit "b" /\
  extract_last_word (lit "SELECT ") = lit "".
Proof.
split; [apply extract_last_word_no_delimiter|].
split; [|repeat split].
intros pre d suf -> Hd Hsuf. now apply extract_last_word_after_delimiter.
Qed.


(** ** The class *)

Section Properties.
Context {P : Python} {K : Keywords} {T : PromptToolkit}.

Lemma upper_nil : upper [] = [].
Proof. reflexivity. Qed.

Lemma upper_app (a b : str) : upper (a ++ b) = upper a ++ upper b.
Proof. unfold upper, str_upper. apply flat_map_app. Qed.

Lemma upper_eq_nil {L : PythonLaws P} (w : str) : upper w = [] -> w = [].
Proof.
destruct w as [|c w]; [reflexivity|].
unfold upper, str_upper. simpl. intros H.
apply app_eq_nil in H as [H _]. now apply upper_char_nonempty in H.
Qed.

Lemma take_while_In {A : Type} (f : A -> bool) (l : list A) (x : A) :
  In x (take_while f l) -> In x l /\ f x = true.
Proof.
induction l as [|y l IH]; [intros []|].
cbn [take_while]. destruct (f y) eqn:E; [|intros []].
intros [<-|H]; [split; [now left | exact E]|].
destruct (IH H) as [H1 H2]. split; [now right | exact H2].
Qed.

Lemma take_while_all {A : Type} (f : A -> bool) (l : list A) :
  forallb f l = true -> take_while f l = l.
Proof.
induction l as [|y l IH]; [reflexivity|].
cbn [forallb take_while]. intros H. apply andb_true_iff in H as [H1 H2].
rewrite H1. f_equal. exact (IH H2).
Qed.

Lemma take_while_prefix {A : Type} (f : A -> bool) (l : list A) :
  exists rest, l = take_while f l ++ rest.
Proof.
induction l as [|y l [rest IH]]; [now exists []|].
cbn [take_while]. destruct (f y).
- exists rest. cbn [app]. now f_equal.
- now exists (y :: l).
Qed.

(** The loop of lines 93-102 run over a list of candidates: it yields the
    matching candidates that come before the first whose display [HTML]
    refuses, and raises exactly when there is such a candidate. *)
Lemma for_each_loop_body (last_word : str) (offset : Z) (l : list (str * str)) :
  for_each (loop_body last_word offset) l
  = (map (render offset) (take_while (accepted offset) (filter (matches last_word) l)),
     if forallb (accepted offset) (filter (matches last_word) l)
     then Return tt else Raise OtherException).
Proof.
induction l as [|[label meta] l IH]; [reflexivity|].
cbn [for_each filter loop_body].
change (startswith (upper label) last_word) with (matches last_word (label, meta)).
destruct (matches last_word (label, meta)); cbn [negb].
- unfold prepare_display_html, HTML. cbn [take_while forallb].
  change (accepted offset (label, meta)) with (xml_well_formed (markup label offset)).
  destruct (xml_well_formed (markup label offset)); [|reflexivity].
  rewrite IH. reflexivity.
- rewrite IH. reflexivity.
Qed.

(** What a call of [get_completions] yields, how it ends, and the object it
    leaves. *)
Lemma get_completions_run (document : Document) (self : FireboltAutoCompleter) :
  get_completions document self =
  (let last_word := upper (current_word document) in
   if len last_word =? 0 then ([], Return tt)
   else (map (render (len last_word))
             (take_while (accepted (len last_word))
                (filter (matches last_word) (current_suggestions self document))),
         if forallb (accepted (len last_word))
                    (filter (matches last_word) (current_suggestions self document))
         then Return tt else Raise OtherException),
   self).
Proof.
unfold get_completions, current_word. cbv zeta.
destruct (len (upper (extract_last_word (text_before_cursor document))) =? 0);
  [reflexivity|].
now rewrite for_each_loop_body.
Qed.

Lemma completions_of_eq (self : FireboltAutoCompleter) (document : Document) :
  completions_of self document =
  let last_word := upper (current_word document) in
  if len last_word =? 0 then []
  else map (render (len last_word))
           (take_while (accepted (len last_word))
              (filter (matches last_word) (current_suggestions self document))).
Proof.
unfold completions_of. rewrite get_completions_run. cbv zeta.
now destruct (len (upper (current_word document)) =? 0).
Qed.

Lemma ending_of_eq (self : FireboltAutoCompleter) (document : Document) :
  ending_of self document =
  let last_word := upper (current_word document) in
  if len last_word =? 0 then Return tt
  else if forallb (accepted (len last_word))
                  (filter (matches last_word) (current_suggestions self document))
       then Return tt else Raise OtherException.
Proof.
unfold ending_of. rewrite get_completions_run. cbv zeta.
now destruct (len (upper (current_word document)) =? 0).
Qed.

Lemma len_upper_word_nonzero {L : PythonLaws P} (document : Document) :
  current_word document <> [] -> len (upper (current_word document)) <> 0.
Proof. intros Hw E. apply len_zero_iff, upper_eq_nil in E. contradiction. Qed.

(** When the iteration ends without an exception, everything that matches
    has been yielded, in the order of the universe. *)
Lemma completions_of_completed (self : FireboltAutoCompleter) (document : Document) :
  ending_of self document = Return tt ->
  completions_of self document =
  let last_word := upper (current_word document) in
  if len last_word =? 0 then []
  else map (render (len last_word))
           (filter (matches last_word) (current_suggestions self document)).
Proof.
rewrite ending_of_eq, completions_of_eq. cbv zeta.
destruct (len (upper (current_word document)) =? 0); [reflexivity|].
destruct (forallb _ _) eqn:E; [|discriminate].
intros _. now rewrite take_while_all.
Qed.

(** What is yielded is an initial part of the matching candidates. *)
Lemma completions_of_prefix (self : FireboltAutoCompleter) (document : Document) :
  exists more,
    map (render (len (upper (current_word document))))
        (filter (matches (upper (current_word document)))
                (current_suggestions self document))
    = completions_of self document ++ more.
Proof.
rewrite completions_of_eq. cbv zeta.
destruct (len (upper (current_word document)) =? 0); [eexists; reflexivity|].
destruct (take_while_prefix (accepted (len (upper (current_word document))))
            (filter (matches (upper (current_word document)))
                    (current_suggestions self document))) as [rest E].
exists (map (render (len (upper (current_word document)))) rest).
rewrite <- map_app. now rewrite <- E.
Qed.

(** Membership in the completions of a call. *)
Lemma completions_of_In (self : FireboltAutoCompleter) (document : Document)
  (c : Completion) :
  In c (completions_of self document) ->
  len (upper (current_word document)) <> 0 /\
  exists s, In s (current_suggestions self document) /\
            matches (upper (current_word document)) s = true /\
            accepted (len (upper (current_word document))) s = true /\
            c = render (len (upper (current_word document))) s.
Proof.
rewrite completions_of_eq. cbv zeta.
destruct (Z.eqb_spec (len (upper (current_word document))) 0) as [E|E];
  [intros []|].
rewrite in_map_iff. intros (s & <- & Hs).
apply take_while_In in Hs as [Hs Ha]. apply filter_In in Hs as [Hin Hm].
split; [exact E|]. exists s. repeat split; assumption.
Qed.

Lemma matching_candidate_rendered {L : PythonLaws P}
  (self : FireboltAutoCompleter) (document : Document) (s : str * str) :
  current_word document <> [] ->
  ending_of self document = Return tt ->
  In s (current_suggestions self document) ->
  startswith (upper (fst s)) (upper (current_word document)) = true ->
  In (render (len (upper (current_word document))) s) (completions_of self document).
Proof.
intros Hw He Hin Hm. rewrite (completions_of_completed self document He). cbv zeta.
destruct (Z.eqb_spec (len (upper (current_word document))) 0) as [E|_].
- exfalso. exact (len_upper_word_nonzero document Hw E).
- apply in_map, filter_In. split; [exact Hin | exact Hm].
Qed.

(** What the loader returns and leaves, by the outcome of its query. *)
Lemma populate_run (cursor : Cursor) (self : FireboltAutoCompleter) :
  populate_table_and_column_names cursor self =
  match query_outcome cursor metadata_query with
  | Return data =>
      (Return tt,
       {| column_names := data;
          suggestions := suggestions self
                         ++ table_suggestions (set_to_list (map tb_name data)) |})
  | Raise FireboltError => (Return tt, self)
  | Raise OtherException => (Raise OtherException, self)
  end.
Proof.
unfold populate_table_and_column_names, try_except_FireboltError, query_outcome,
  bind, call.
destruct (execute cursor metadata_query) as [[]|[|]]; try reflexivity.
destruct (fetchall cursor) as [data|[|]]; reflexivity.
Qed.

Lemma set_to_list_nil {L : PythonLaws P} : set_to_list [] = [].
Proof.
destruct (set_to_list []) as [|x l] eqn:E; [reflexivity|].
exfalso. apply (set_to_list_In [] x). rewrite E. now left.
Qed.

(** After the loader the catalog is the static one followed by the TABLE
    entries of the rows held. *)
Lemma after_load_suggestions {L : PythonLaws P} (cursor : Cursor) :
  suggestions (after_load cursor) =
  static_suggestions
  ++ table_suggestions (set_to_list (map tb_name (column_names (after_load cursor)))).
Proof.
unfold after_load. rewrite populate_run.
destruct (query_outcome cursor metadata_query) as [data|[|]]; simpl;
  try reflexivity; rewrite set_to_list_nil; simpl; now rewrite app_nil_r.
Qed.

(** In every state of a session the catalog is the static one followed by
    TABLE entries, those of an initial part of the listing of the table
    names of the rows held. *)
Lemma session_state_suggestions {L : PythonLaws P} (self : FireboltAutoCompleter) :
  session_state self ->
  exists tables pending,
    set_to_list (map tb_name (column_names self)) = tables ++ pending /\
    suggestions self = static_suggestions ++ table_suggestions tables.
Proof.
intros [|cursor data done rest Hq Hs|cursor].
- exists [], []. simpl. rewrite set_to_list_nil. split; [reflexivity|].
  now rewrite app_nil_r.
- exists done, rest. split; [exact Hs | reflexivity].
- exists (set_to_list (map tb_name (column_names (after_load cursor)))), [].
  split; [now rewrite app_nil_r | apply after_load_suggestions].
Qed.

(** C1, amended.  In every state of a session the candidate universe is the
    keywords (as KEYWORD), then the functions (as FUNCTION), then TABLE
    entries for distinct table names of the rows held (none before the
    load or after a failed one; while the loader is appending them, those
    appended so far; after the load, one per distinct table name), then
    one COLUMN entry per row whose table name occurs in the full text, in
    row order.  What a call yields is an initial part of the renderings of
    the matching candidates taken in that order, and all of them when the
    call ends without an exception; the call leaves the object as it is. *)
Theorem get_completions_catalog_order {L : PythonLaws P}
  (self : FireboltAutoCompleter) (document : Document) :
  session_state self ->
  let last_word := upper (current_word document) in
  (exists tables pending,
     set_to_list (map tb_name (column_names self)) = tables ++ pending /\
     NoDup tables /\
     (forall t, In t tables -> exists d, In d (column_names self) /\ tb_name d = t) /\
     let universe :=
       map (fun keyword => (keyword, lit "KEYWORD")) KEYWORDS
       ++ map (fun function => (function, lit "FUNCTION")) FUNCTIONS
       ++ map (fun table_name => (table_name, lit "TABLE")) tables
       ++ map (fun d => (column_name d,
                         lit "COLUMN (" ++ column_type d ++ lit ", " ++ tb_name d
                         ++ lit ")"))
              (filter (fun d => str_in (tb_name d) (text document))
                      (column_names self)) in
     current_suggestions self document = universe /\
     (exists more,
        map (render (len last_word)) (filter (matches last_word) universe)
        = completions_of self document ++ more) /\
     (ending_of self document = Return tt ->
      completions_of self document
      = if len last_word =? 0 then []
        else map (render (len last_word)) (filter (matches last_word) universe)) /\
     snd (get_completions document self) = self) /\
  (forall cursor,
     let tables := set_to_list (map tb_name (column_names (after_load cursor))) in
     (forall t, In t tables <->
                exists d, In d (column_names (after_load cursor)) /\ tb_name d = t) /\
     current_suggestions (after_load cursor) document
     = map (fun keyword => (keyword, lit "KEYWORD")) KEYWORDS
       ++ map (fun function => (function, lit "FUNCTION")) FUNCTIONS
       ++ map (fun table_name => (table_name, lit "TABLE")) tables
       ++ column_suggestions (after_load cursor) document).
Proof.
intros H last_word. split.
- destruct (session_state_suggestions self H) as (tables & pending & Hs & Hc).
  exists tables, pending. split; [exact Hs|].
  assert (Hnd : NoDup (tables ++ pending))
    by (rewrite <- Hs; apply set_to_list_NoDup).
  split; [exact (NoDup_app_remove_r _ _ Hnd)|].
  split.
  { intros t Ht.
    assert (Hin : In t (set_to_list (map tb_name (column_names self))))
      by (rewrite Hs; apply in_or_app; now left).
    apply set_to_list_In, in_map_iff in Hin as (d & H1 & H2). exists d. now split. }
  cbv zeta.
  assert (E : current_suggestions self document
              = map (fun keyword => (keyword, lit "KEYWORD")) KEYWORDS
                ++ map (fun function => (function, lit "FUNCTION")) FUNCTIONS
                ++ map (fun table_name => (table_name, lit "TABLE")) tables
                ++ column_suggestions self document).
  { unfold current_suggestions. rewrite Hc. unfold static_suggestions, table_suggestions.
    now rewrite <- !app_assoc. }
  split; [exact E|]. split; [|split].
  + unfold column_suggestions in E. rewrite <- E. apply completions_of_prefix.
  + intros He. unfold column_suggestions in E. rewrite <- E.
    apply (completions_of_completed self document He).
  + now rewrite get_completions_run.
- intros cursor tables. split.
  + intros t. unfold tables. rewrite set_to_list_In, in_map_iff.
    split; intros (d & H1 & H2); exists d; now split.
  + unfold current_suggestions. rewrite after_load_suggestions.
    unfold static_suggestions, table_suggestions. now rewrite <- !app_assoc.
Qed.


(** C6.  When the metadata query raises FireboltError the loader returns
    normally and writes nothing: the index stays empty, and every later
    call of [get_completions] leaves the object as it is and yields static
    candidates only; it ends without an exception, yielding every matching
    keyword and function, [HTML] accepting the display of the names that
    [keywords.py] lists.  Any other exception leaves the loader as it was
    raised. *)
Theorem loader_error_policy (cursor : Cursor) (e : exn) :
  query_outcome cursor metadata_query = Raise e ->
  match e with
  | FireboltError =>
      (forall self, populate_table_and_column_names cursor self = (Return tt, self)) /\
      after_load cursor = __init__ /\
      column_names (after_load cursor) = [] /\
      forall document,
        let last_word := upper (current_word document) in
        snd (get_completions document (after_load cursor)) = after_load cursor /\
        (forall c, In c (completions_of (after_load cursor) document) ->
                   display_meta c = lit "KEYWORD" \/ display_meta c = lit "FUNCTION") /\
        (static_labels_accepted ->
         get_completions document (after_load cursor) =
         ((if len last_word =? 0 then []
           else map (render (len last_word))
                    (filter (matches last_word) static_suggestions),
           Return tt),
          after_load cursor))
  | OtherException =>
      forall self,
        populate_table_and_column_names cursor self = (Raise OtherException, self)
  end.
Proof.
intros Hq. destruct e.
- assert (Hp : forall self,
             populate_table_and_column_names cursor self = (Return tt, self))
    by (intros self; rewrite populate_run, Hq; reflexivity).
  assert (Ha : after_load cursor = __init__) by (unfold after_load; now rewrite Hp).
  split; [exact Hp|]. split; [exact Ha|]. split; [now rewrite Ha|].
  intros document last_word. rewrite Ha.
  assert (Eu : current_suggestions __init__ document = static_suggestions).
  { unfold current_suggestions, column_suggestions. simpl. apply app_nil_r. }
  split; [now rewrite get_completions_run|]. split.
  + intros c Hc. destruct (completions_of_In _ _ _ Hc) as (_ & [label meta] & Hs & _ & _ & ->).
    rewrite Eu in Hs. unfold static_suggestions in Hs.
    cbn [render display_meta snd].
    apply in_app_or in Hs as [Hs|Hs]; apply in_map_iff in Hs as (x & Hx & _);
      injection Hx as _ <-; [left | right]; reflexivity.
  + intros Hacc. rewrite get_completions_run. cbv zeta. rewrite Eu.
    fold last_word. destruct (len last_word =? 0); [reflexivity|].
    assert (Hall : forallb (accepted (len last_word))
                           (filter (matches last_word) static_suggestions) = true).
    { apply forallb_forall. intros s Hs. apply filter_In in Hs as [Hs _].
      now apply Hacc. }
    rewrite Hall, take_while_all by exact Hall. reflexivity.
- intros self. now rewrite populate_run, Hq.
Qed.

(** C9.  A call of [get_completions] leaves the object as it found it,
    catalog and index rows alike, and a second call on the same document
    yields the same completions and ends the same way. *)
Theorem get_completions_frame (self : FireboltAutoCompleter) (document : Document) :
  snd (get_completions document self) = self /\
  suggestions (snd (get_completions document self)) = suggestions self /\
  column_names (snd (get_completions document self)) = column_names self /\
  get_completions document (snd (get_completions document self))
  = get_completions document self.
Proof.
assert (E : snd (get_completions document self) = self)
  by now rewrite get_completions_run.
rewrite !E. repeat split.
Qed.


End Properties.

(** ** The model at work *)

Lemma py_runtime_laws : PythonLaws py_runtime.
Proof.
split.
- intros c. simpl. unfold py_upper_char.
  repeat match goal with |- context [if ?b then _ else _] => destruct b end;
    discriminate.
- intros l. apply NoDup_nodup.
- intros l x. apply nodup_In.
Qed.

#[local] Existing Instance py_runtime.
#[local] Existing Instance demo_keywords.
#[local] Existing Instance demo_toolkit.
#[local] Existing Instance py_runtime_laws.

(** The stand-in parser accepts the display of the stand-in keywords and
    functions, wherever the offset falls. *)
Lemma demo_static_labels_accepted : static_labels_accepted.
Proof.
intros s offset Hs. unfold accepted, markup, slice_to, slice_from.
generalize (clip_index (fst s) offset). intros n.
vm_compute in Hs.
decompose [or] Hs; try contradiction; subst s; cbn [fst];
  do 7 (destruct n as [|n]; [vm_compute; reflexivity|]);
  vm_compute; reflexivity.
Qed.

Lemma get_completions_catalog_order_witness :
  session_state (after_load (cursor_returning users_rows)) /\
  current_suggestions (after_load (cursor_returning users_rows))
                      (document_at_end (lit "SELECT id FROM users WHERE u"))
  = [(lit "SELECT", lit "KEYWORD"); (lit "USE", lit "KEYWORD");
     (lit "UPDATE", lit "KEYWORD"); (lit "UPPER", lit "FUNCTION");
     (lit "ABS", lit "FUNCTION"); (lit "users", lit "TABLE");
     (lit "id", lit "COLUMN (int, users)")].
Proof.
split; [apply session_loaded|].
destruct (get_completions_catalog_order
            (after_load (cursor_returning users_rows))
            (document_at_end (lit "SELECT id FROM users WHERE u"))
            (session_loaded (cursor_returning users_rows)))
  as [_ H].
destruct (H (cursor_returning users_rows)) as [_ E].
rewrite E. vm_compute. reflexivity.
Defined.

(** The universe the claim C1 words leaves out the TABLE entries the code
    keeps in its catalog: with the row (users, id, int) loaded and the word
    "u", the table "users" is yielded. *)
Lemma candidate_universe_has_tables :
  session_state (after_load (cursor_returning users_rows)) /\
  current_suggestions (after_load (cursor_returning users_rows))
                      (document_at_end (lit "SELECT id FROM users WHERE u"))
  <> spec_universe (after_load (cursor_returning users_rows))
                   (document_at_end (lit "SELECT id FROM users WHERE u")) /\
  completions_of (after_load (cursor_returning users_rows))
                 (document_at_end (lit "SELECT id FROM users WHERE u"))
  <> spec_completions (after_load (cursor_returning users_rows))
                      (document_at_end (lit "SELECT id FROM users WHERE u")) /\
  ending_of (after_load (cursor_returning users_rows))
            (document_at_end (lit "SELECT id FROM users WHERE u")) = Return tt /\
  In (render 1 (lit "users", lit "TABLE"))
     (completions_of (after_load (cursor_returning users_rows))
                     (document_at_end (lit "SELECT id FROM users WHERE u"))).
Proof.
split; [apply session_loaded|].
split; [intros H; vm_compute in H; discriminate H|].
split; [intros H; vm_compute in H; discriminate H|].
split; [vm_compute; reflexivity|].
vm_compute. right; right; right; left; reflexivity.
Qed.

Lemma extract_last_word_rightmost_delimiter_witness :
  is_delimiter 32%N = true /\
  (forall c, In c (lit "b") -> is_delimiter c = false) /\
  extract_last_word (lit "SELECT a," ++ 32%N :: lit "b") = lit "b".
Proof.
assert (Hs : forall c, In c (lit "b") -> is_delimiter c = false).
{ intros c [<-|[]]. vm_compute. reflexivity. }
split; [vm_compute; reflexivity|]. split; [exact Hs|].
exact (proj1 (proj2 (extract_last_word_rightmost_delimiter
                       (lit "SELECT a," ++ 32%N :: lit "b")))
         (lit "SELECT a,") 32%N (lit "b") eq_refl eq_refl Hs).
Defined.


Lemma loader_error_policy_witness :
  query_outcome (cursor_raising FireboltError) metadata_query = Raise FireboltError /\
  after_load (cursor_raising FireboltError) = __init__ /\
  get_completions (document_at_end (lit "us")) (after_load (cursor_raising FireboltError))
  = (([render 2 (lit "USE", lit "KEYWORD")], Return tt),
     after_load (cursor_raising FireboltError)) /\
  query_outcome (cursor_raising OtherException) metadata_query = Raise OtherException /\
  populate_table_and_column_names (cursor_raising OtherException) __init__
  = (Raise OtherException, __init__).
Proof.
split; [reflexivity|].
pose proof (loader_error_policy (cursor_raising FireboltError) FireboltError eq_refl)
  as (_ & Ha & _ & Hd).
split; [exact Ha|].
split.
{ destruct (Hd (document_at_end (lit "us"))) as (_ & _ & E).
  rewrite (E demo_static_labels_accepted). vm_compute. reflexivity. }
split; [reflexivity|].
exact (loader_error_policy (cursor_raising OtherException) OtherException
         eq_refl __init__).
Defined.


(** ** The rendering *)

Lemma markup_split (prefix rest : str) :
  markup (prefix ++ rest) (len prefix)
  = lit "<b><style color='red'>" ++ prefix ++ lit "</style></b>" ++ escape rest.
Proof.
unfold markup. now rewrite slice_to_app, slice_from_app.
Qed.

Lemma replace_cons (c old : char) (new t : str) :
  replace (c :: t) old new = (if char_eqb c old then new else [c]) ++ replace t old new.
Proof. reflexivity. Qed.

Lemma replace_app (a b : str) (old : char) (new : str) :
  replace (a ++ b) old new = replace a old new ++ replace b old new.
Proof. unfold replace. apply flat_map_app. Qed.

Lemma escape_cons (c : char) (t : str) : escape (c :: t) = escape [c] ++ escape t.
Proof.
unfold escape. rewrite replace_cons, !replace_app.
cbn [replace flat_map]. now rewrite !app_nil_r.
Qed.

Lemma escape_char (c : char) :
  escape [c] = if char_eqb c 60%N then lit "&#60;"
               else if char_eqb c 62%N then lit "&#62;" else [c].
Proof.
unfold escape. cbn [replace flat_map]. rewrite app_nil_r.
destruct (char_eqb c 60%N); [reflexivity|].
cbn [flat_map]. now rewrite app_nil_r.
Qed.

(** The part after the offset comes out with no [<] and no [>] left. *)
Lemma escape_no_angle (t : str) (x : char) :
  In x (escape t) -> x <> 60%N /\ x <> 62%N.
Proof.
induction t as [|c t IH]; [intros []|].
rewrite escape_cons, escape_char. intros H.
apply in_app_or in H as [H|H]; [|now apply IH].
destruct (char_eqb c 60%N) eqn:E1; [|destruct (char_eqb c 62%N) eqn:E2].
- vm_compute in H. decompose [or] H; subst; (contradiction || (split; discriminate)).
- vm_compute in H. decompose [or] H; subst; (contradiction || (split; discriminate)).
- destruct H as [<-|[]]. split; intros ->; discriminate.
Qed.

(** C2.  The column "a>b" of table "t", completed on the text "t a>": the
    completion is yielded with the [>] of its first two characters left
    as it is inside the emphasised part of the display, while the same
    [>] is written "&#62;" when the text "t a" leaves it after the
    offset. *)
Example display_keeps_markup_in_prefix :
  get_completions (document_at_end (lit "t a>")) (after_load (cursor_returning markup_rows))
  = (([ {| completion_text := lit "a>b";
           start_position := -2;
           display := lit "<b><style color='red'>a></style></b>b";
           display_meta := lit "COLUMN (int, t)" |} ],
      Return tt),
     after_load (cursor_returning markup_rows)) /\
  In {| completion_text := lit "a>b";
        start_position := -1;
        display := lit "<b><style color='red'>a</style></b>&#62;b";
        display_meta := lit "COLUMN (int, t)" |}
     (completions_of (after_load (cursor_returning markup_rows))
                     (document_at_end (lit "t a"))).
Proof.
split; [vm_compute; reflexivity|].
vm_compute. right; left; reflexivity.
Qed.

(** C3.  The column "a&b" of table "t", completed on the text "t a": the
    candidate is in the universe and its upper-cased label starts with the
    upper-cased word, and it is not among the completions: the call yields
    the function ABS and raises when [HTML] refuses the display of
    "a&b". *)
Example matching_candidate_not_yielded :
  current_word (document_at_end (lit "t a")) = lit "a" /\
  In (lit "a&b", lit "COLUMN (int, t)")
     (current_suggestions (after_load (cursor_returning ampersand_rows))
                          (document_at_end (lit "t a"))) /\
  startswith (upper (lit "a&b")) (upper (lit "a")) = true /\
  get_completions (document_at_end (lit "t a")) (after_load (cursor_returning ampersand_rows))
  = (([render 1 (lit "ABS", lit "FUNCTION")], Raise OtherException),
     after_load (cursor_returning ampersand_rows)) /\
  ~ In (render 1 (lit "a&b", lit "COLUMN (int, t)"))
       (completions_of (after_load (cursor_returning ampersand_rows))
                       (document_at_end (lit "t a"))).
Proof.
split; [vm_compute; reflexivity|].
split; [vm_compute; do 6 right; left; reflexivity|].
split; [vm_compute; reflexivity|].
split; [vm_compute; reflexivity|].
intros H. vm_compute in H. destruct H as [H|[]]. discriminate H.
Qed.

(** C8.  The table "r&d", completed on the text "r": the current word is
    not empty, the table name matches it, [HTML] refuses its display
    (the [&] is written as it is), and the call raises without yielding
    anything. *)
Example get_completions_raises :
  current_word (document_at_end (lit "r")) = lit "r" /\
  markup (lit "r&d") 1 = lit "<b><style color='red'>r</style></b>&d" /\
  prepare_display_html (lit "r&d") 1 = Raise OtherException /\
  get_completions (document_at_end (lit "r"))
                  (after_load (cursor_returning ampersand_table_rows))
  = (([], Raise OtherException), after_load (cursor_returning ampersand_table_rows)).
Proof. repeat split; vm_compute; reflexivity. Qed.

(** A [<] in the emphasised part is not escaped either; there [HTML]
    refuses the display and the call raises. *)
Example open_angle_in_prefix_raises :
  markup (lit "a<b") 2 = lit "<b><style color='red'>a<</style></b>b" /\
  get_completions (document_at_end (lit "t a<"))
                  (after_load (cursor_returning [(lit "t", lit "a<b", lit "int")]))
  = (([], Raise OtherException),
     after_load (cursor_returning [(lit "t", lit "a<b", lit "int")])).
Proof. split; vm_compute; reflexivity. Qed.

(** The word U+00DF has one character and upper-cases to "SS": the offset
    of the completion is -2. *)
Example offset_counts_upper_cased_word :
  current_word (document_at_end (lit "t " ++ [223%N])) = [223%N] /\
  get_completions (document_at_end (lit "t " ++ [223%N]))
                  (after_load (cursor_returning sharp_s_rows))
  = (([ {| completion_text := lit "ssn";
           start_position := -2;
           display := lit "<b><style color='red'>ss</style></b>n";
           display_meta := lit "COLUMN (text, t)" |} ],
      Return tt),
     after_load (cursor_returning sharp_s_rows)).
Proof. split; vm_compute; reflexivity. Qed.

(** Before the load, "us" completes to the keyword USE and to nothing from
    the schema. *)
Example before_load_keywords_only :
  get_completions (document_at_end (lit "us")) __init__
  = (([ {| completion_text := lit "USE";
           start_position := -2;
           display := lit "<b><style color='red'>US</style></b>E";
           display_meta := lit "KEYWORD" |} ],
      Return tt),
     __init__).
Proof. vm_compute. reflexivity. Qed.

Example extract_last_word_examples :
  extract_last_word (lit "count(na") = lit "na" /\
  extract_last_word (lit "t.col") = lit "col" /\
  extract_last_word (lit "a b;") = lit "" /\
  extract_last_word (lit "") = lit "" /\
  extract_last_word (lit "users") = lit "users".
Proof. repeat split. Qed.

Example rfind_examples :
  rfind (lit "a.b.c") (lit ".") = 3 /\ rfind (lit "abc") (lit ".") = -1 /\
  rfind (lit "abc") (lit "") = 3.
Proof. repeat split. Qed.

Example str_in_examples :
  str_in (lit "users") (lit "SELECT id FROM users WHERE i") = true /\
  str_in (lit "users") (lit "SELECT id FROM user") = false /\
  str_in (lit "") (lit "x") = true.
Proof. repeat split. Qed.

(** * Further properties of the tokenizer *)

Lemma delimiter_free_app (a b : str) :
  (forall c, In c a -> is_delimiter c = false) ->
  (forall c, In c b -> is_delimiter c = false) ->
  forall c, In c (a ++ b) -> is_delimiter c = false.
Proof. intros Ha Hb c H. apply in_app_or in H as [H|H]; auto. Qed.

Lemma existsb_is_delimiter_false (b : str) :
  existsb is_delimiter b = false <-> forall c, In c b -> is_delimiter c = false.
Proof.
split.
- intros H c Hc. destruct (is_delimiter c) eqn:E; [|reflexivity].
  assert (existsb is_delimiter b = true) by (apply existsb_exists; now exists c).
  congruence.
- intros H. destruct (existsb is_delimiter b) eqn:E; [|reflexivity].
  apply existsb_exists in E as (c & Hc & Hd). rewrite (H c Hc) in Hd. discriminate.
Qed.

(** X1.  The word returned is a suffix of the text that holds no delimiter, and
    what precedes it is empty or ends with a delimiter: it is the longest
    such suffix.  Tokenizing the word again gives the word. *)
Theorem extract_last_word_longest_suffix (t : str) :
  exists pre,
    t = pre ++ extract_last_word t /\
    (forall c, In c (extract_last_word t) -> is_delimiter c = false) /\
    (pre = [] \/ exists p d, pre = p ++ [d] /\ is_delimiter d = true) /\
    extract_last_word (extract_last_word t) = extract_last_word t.
Proof.
destruct (last_delimiter_split t) as [Hfree | (pre & d & suf & -> & Hd & Hsuf)].
- rewrite (extract_last_word_no_delimiter t Hfree).
  exists []. repeat split; auto. now apply extract_last_word_no_delimiter.
- rewrite (extract_last_word_after_delimiter pre suf d Hd Hsuf).
  exists (pre ++ [d]). split; [now rewrite <- app_assoc|].
  split; [exact Hsuf|]. split; [right; now exists pre, d|].
  now apply extract_last_word_no_delimiter.
Qed.

(** X2.  The word of a concatenation: when the second part holds a delimiter
    the first part plays no role; when it holds none it is appended to the
    word of the first part.  So a typed letter extends the word and a typed
    delimiter empties it. *)
Theorem extract_last_word_app (a b : str) :
  extract_last_word (a ++ b)
  = if existsb is_delimiter b then extract_last_word b
    else extract_last_word a ++ b.
Proof.
destruct (existsb is_delimiter b) eqn:E.
- destruct (last_delimiter_split b) as [Hfree | (pre & d & suf & -> & Hd & Hsuf)].
  + apply existsb_is_delimiter_false in Hfree. congruence.
  + rewrite app_assoc.
    now rewrite !extract_last_word_after_delimiter.
- pose proof (proj1 (existsb_is_delimiter_false b) E) as Hb.
  destruct (last_delimiter_split a) as [Hfree | (pre & d & suf & -> & Hd & Hsuf)].
  + rewrite (extract_last_word_no_delimiter a Hfree).
    apply extract_last_word_no_delimiter. now apply delimiter_free_app.
  + rewrite (extract_last_word_after_delimiter pre suf d Hd Hsuf).
    rewrite <- app_assoc. cbn [app].
    apply extract_last_word_after_delimiter; [exact Hd|].
    now apply delimiter_free_app.
Qed.

(** X3.  There is no current word exactly when the text is empty or its last
    character is a delimiter. *)
Theorem extract_last_word_empty_iff (t : str) :
  extract_last_word t = [] <->
  t = [] \/ exists p d, t = p ++ [d] /\ is_delimiter d = true.
Proof.
split.
- intros E.
  destruct (last_delimiter_split t) as [Hfree | (pre & d & suf & -> & Hd & Hsuf)].
  + left. now rewrite <- (extract_last_word_no_delimiter t Hfree).
  + right. rewrite (extract_last_word_after_delimiter pre suf d Hd Hsuf) in E.
    subst suf. now exists pre, d.
- intros [-> | (p & d & -> & Hd)]; [reflexivity|].
  apply (extract_last_word_after_delimiter p [] d Hd). intros c [].
Qed.

(** * Further properties of the rendering *)

Lemma slice_to_from (t : str) (i : Z) : slice_to t i ++ slice_from t i = t.
Proof. unfold slice_to, slice_from. apply firstn_skipn. Qed.

Lemma slice_from_In (t : str) (i : Z) (c : char) : In c (slice_from t i) -> In c t.
Proof. intros H. rewrite <- (slice_to_from t i). apply in_or_app. now right. Qed.

Lemma slice_to_past_end (t : str) (i : Z) : len t <= i -> slice_to t i = t.
Proof.
intros H. unfold slice_to, clip_index. pose proof (len_nonneg t).
destruct (Z.ltb_spec i 0); [lia|].
apply firstn_all2. unfold len in H. lia.
Qed.

Lemma slice_from_past_end (t : str) (i : Z) : len t <= i -> slice_from t i = [].
Proof.
intros H. unfold slice_from, clip_index. pose proof (len_nonneg t).
destruct (Z.ltb_spec i 0); [lia|].
apply skipn_all2. unfold len in H. lia.
Qed.

Lemma escape_angle_free (t : str) :
  (forall c, In c t -> c <> 60%N /\ c <> 62%N) -> escape t = t.
Proof.
induction t as [|c t IH]; intros H; [reflexivity|].
rewrite escape_cons, escape_char, IH by (intros x Hx; apply H; now right).
destruct (H c (or_introl eq_refl)) as [H1 H2].
unfold char_eqb.
destruct (N.eqb_spec c 60); [contradiction|].
destruct (N.eqb_spec c 62); [contradiction|]. reflexivity.
Qed.

(** X4.  Whatever the offset (negative, or past the end of the label), when
    [HTML] accepts the display of a label without [<] and [>], the display
    shows the label whole and unchanged: the two parts the markup
    separates make up the label. *)
Theorem prepare_display_html_shows_label {T : PromptToolkit}
  (label : str) (offset : Z) (html : str) :
  (forall c, In c label -> c <> 60%N /\ c <> 62%N) ->
  prepare_display_html label offset = Return html ->
  exists emphasised rest,
    emphasised ++ rest = label /\
    html = lit "<b><style color='red'>" ++ emphasised ++ lit "</style></b>" ++ rest.
Proof.
intros H Hr. exists (slice_to label offset), (slice_from label offset).
split; [apply slice_to_from|].
unfold prepare_display_html, HTML in Hr.
destruct (xml_well_formed (markup label offset)); [|discriminate].
injection Hr as <-.
unfold markup. fold (escape (slice_from label offset)).
rewrite escape_angle_free; [reflexivity|].
intros c Hc. apply H. now apply slice_from_In in Hc.
Qed.

Lemma prepare_display_html_shows_label_witness :
  (forall c, In c (lit "USE") -> c <> 60%N /\ c <> 62%N) /\
  prepare_display_html (lit "USE") 2 = Return (lit "<b><style color='red'>US</style></b>E") /\
  exists emphasised rest,
    emphasised ++ rest = lit "USE" /\
    lit "<b><style color='red'>US</style></b>E"
    = lit "<b><style color='red'>" ++ emphasised ++ lit "</style></b>" ++ rest.
Proof.
assert (H : forall c, In c (lit "USE") -> c <> 60%N /\ c <> 62%N).
{ intros c Hc. vm_compute in Hc. decompose [or] Hc; subst; try contradiction;
    split; discriminate. }
assert (Hr : prepare_display_html (lit "USE") 2
             = Return (lit "<b><style color='red'>US</style></b>E"))
  by (vm_compute; reflexivity).
split; [exact H|]. split; [exact Hr|].
exact (prepare_display_html_shows_label (lit "USE") 2 _ H Hr).
Defined.

(** X5.  An offset that reaches the end of the label, or passes it, puts the
    whole label in the emphasised part and leaves nothing after it: the
    text handed to [HTML] is the label between the tags, and this is the
    display when [HTML] accepts it. *)
Theorem prepare_display_html_offset_past_end {T : PromptToolkit}
  (label : str) (offset : Z) :
  len label <= offset ->
  prepare_display_html label offset
  = HTML (lit "<b><style color='red'>" ++ label ++ lit "</style></b>") /\
  forall html,
    prepare_display_html label offset = Return html ->
    html = lit "<b><style color='red'>" ++ label ++ lit "</style></b>".
Proof.
intros H.
assert (E : markup label offset
            = lit "<b><style color='red'>" ++ label ++ lit "</style></b>").
{ unfold markup. rewrite slice_to_past_end, slice_from_past_end by assumption.
  cbn [replace flat_map]. now rewrite app_nil_r. }
unfold prepare_display_html. rewrite E. split; [reflexivity|].
intros html Hr. unfold HTML in Hr.
destruct (xml_well_formed _); [|discriminate]. now injection Hr as <-.
Qed.

Lemma prepare_display_html_offset_past_end_witness :
  len [223%N] <= 2 /\
  prepare_display_html [223%N] 2
  = HTML (lit "<b><style color='red'>" ++ [223%N] ++ lit "</style></b>").
Proof.
assert (H : len [223%N] <= 2) by (vm_compute; discriminate).
split; [exact H|].
exact (proj1 (prepare_display_html_offset_past_end [223%N] 2 H)).
Defined.

(** X6.  When [HTML] accepts it, the display holds, after the closing tags,
    no [<] and no [>]: both are replaced there by their numeric
    references, while the emphasised part is [text[:offset]] as it is. *)
Theorem prepare_display_html_rest_escaped {T : PromptToolkit}
  (label : str) (offset : Z) (html : str) :
  prepare_display_html label offset = Return html ->
  exists rest,
    html
    = lit "<b><style color='red'>" ++ slice_to label offset ++ lit "</style></b>"
      ++ rest /\
    forall c, In c rest -> c <> 60%N /\ c <> 62%N.
Proof.
intros Hr. unfold prepare_display_html, HTML in Hr.
destruct (xml_well_formed (markup label offset)); [|discriminate].
injection Hr as <-.
exists (escape (slice_from label offset)). split; [reflexivity|].
apply escape_no_angle.
Qed.

Lemma prepare_display_html_rest_escaped_witness :
  prepare_display_html (lit "a>b") 1
  = Return (lit "<b><style color='red'>a</style></b>&#62;b") /\
  exists rest,
    lit "<b><style color='red'>a</style></b>&#62;b"
    = lit "<b><style color='red'>" ++ slice_to (lit "a>b") 1 ++ lit "</style></b>"
      ++ rest /\
    forall c, In c rest -> c <> 60%N /\ c <> 62%N.
Proof.
assert (Hr : prepare_display_html (lit "a>b") 1
             = Return (lit "<b><style color='red'>a</style></b>&#62;b"))
  by (vm_compute; reflexivity).
split; [exact Hr|].
exact (prepare_display_html_rest_escaped (lit "a>b") 1 _ Hr).
Defined.

(** * Further properties of the matcher *)

Section Matcher.
Context {P : Python} {K : Keywords} {T : PromptToolkit}.

Lemma startswith_app_l (s a b : str) :
  startswith s (a ++ b) = true -> startswith s a = true.
Proof.
intros H. apply startswith_iff in H as [r ->].
rewrite <- app_assoc. apply startswith_app.
Qed.

Lemma str_in_extend (s t a b : str) :
  str_in s t = true -> str_in s (a ++ t ++ b) = true.
Proof.
intros H. apply str_in_iff in H as (pre & post & ->).
apply str_in_iff. exists (a ++ pre), (post ++ b).
now rewrite <- !app_assoc.
Qed.

Lemma len_upper_same (w : str) :
  (forall c, In c w -> List.length (upper_char c) = 1%nat) ->
  len (upper w) = len w.
Proof.
induction w as [|c w IH]; intros H; [reflexivity|].
change (upper (c :: w)) with (upper_char c ++ upper w).
rewrite len_app, len_cons, IH by (intros x Hx; apply H; now right).
unfold len at 1. rewrite (H c) by now left. lia.
Qed.

Lemma slice_to_zero (t : str) : slice_to t 0 = [].
Proof. reflexivity. Qed.

Lemma accepted_prepare_display_html (offset : Z) (s : str * str) :
  accepted offset s = true ->
  prepare_display_html (fst s) offset = Return (markup (fst s) offset).
Proof.
unfold accepted, prepare_display_html, HTML. intros H. now rewrite H.
Qed.

(** X7.  Everything yielded comes from the universe of the call and matches:
    a completion is a candidate of the catalog or of the columns, its
    upper-cased label starts with the upper-cased word, the word is not
    empty, its start position is strictly negative, and its display is
    what [prepare_display_html] returned for its label. *)
Theorem completions_sound (self : FireboltAutoCompleter) (document : Document)
  (c : Completion) :
  In c (completions_of self document) ->
  current_word document <> [] /\
  In (completion_text c, display_meta c) (current_suggestions self document) /\
  startswith (upper (completion_text c)) (upper (current_word document)) = true /\
  start_position c = - len (upper (current_word document)) /\
  start_position c < 0 /\
  prepare_display_html (completion_text c) (- start_position c) = Return (display c).
Proof.
intros H.
destruct (completions_of_In self document c H)
  as (E & [label meta] & Hin & Hm & Ha & ->).
clear H.
pose proof (len_nonneg (upper (current_word document))) as Hn.
cbn [render completion_text display_meta start_position display fst snd].
repeat split; try assumption; try lia.
- intros Hw. rewrite Hw in E. apply E. reflexivity.
- rewrite Z.opp_involutive. exact (accepted_prepare_display_html _ _ Ha).
Qed.

(** X8.  Typing on narrows the completions: when the word grows, the text
    names the same tables, and the call for the shorter word ends without
    an exception, every completion of the longer word has its label and
    detail among the completions of the shorter one. *)
Theorem typing_narrows_completions {L : PythonLaws P}
  (self : FireboltAutoCompleter) (before after : Document) (typed : str)
  (c : Completion) :
  current_word before <> [] ->
  current_word after = current_word before ++ typed ->
  column_suggestions self after = column_suggestions self before ->
  ending_of self before = Return tt ->
  In c (completions_of self after) ->
  exists c', In c' (completions_of self before) /\
             completion_text c' = completion_text c /\
             display_meta c' = display_meta c.
Proof.
intros Hw Ht Hc He H.
destruct (completions_of_In self after c H) as (_ & s & Hin & Hm & _ & ->).
clear H.
exists (render (len (upper (current_word before))) s).
split; [|split; reflexivity].
apply (matching_candidate_rendered self before s Hw He).
- unfold current_suggestions in Hin |- *. rewrite <- Hc. exact Hin.
- unfold matches in Hm. rewrite Ht, upper_app in Hm.
  exact (startswith_app_l _ _ _ Hm).
Qed.

(** X9.  A column offered for a text stays offered when the text is extended,
    before or after. *)
Theorem column_suggestions_grow_with_text
  (self : FireboltAutoCompleter) (document longer : Document) (a b : str)
  (s : str * str) :
  text longer = a ++ text document ++ b ->
  In s (column_suggestions self document) ->
  In s (column_suggestions self longer).
Proof.
intros Ht H. unfold column_suggestions in *.
apply in_map_iff in H as (d & <- & Hd). apply filter_In in Hd as [Hd Hin].
apply in_map_iff. exists d. split; [reflexivity|].
apply filter_In. split; [exact Hd|]. rewrite Ht. now apply str_in_extend.
Qed.

(** X10.  When the text names no table of the index, no column is offered: the
    universe is the catalog, and every completion comes from it. *)
Theorem no_table_named_no_columns
  (self : FireboltAutoCompleter) (document : Document) :
  (forall d, In d (column_names self) -> str_in (tb_name d) (text document) = false) ->
  current_suggestions self document = suggestions self /\
  forall c, In c (completions_of self document) ->
            In (completion_text c, display_meta c) (suggestions self).
Proof.
intros H.
assert (E : current_suggestions self document = suggestions self).
{ unfold current_suggestions, column_suggestions.
  replace (filter _ (column_names self)) with (@nil row); [apply app_nil_r|].
  symmetry. induction (column_names self) as [|d l IH]; [reflexivity|].
  cbn [filter]. rewrite (H d) by now left.
  apply IH. intros d' Hd'. apply H. now right. }
split; [exact E|].
intros c Hc.
destruct (completions_of_In self document c Hc)
  as (_ & [label meta] & Hin & _ & _ & ->).
rewrite E in Hin. exact Hin.
Qed.

(** X11.  The word is read before the cursor, the table names in the whole text:
    a table named after the cursor brings its columns all the same. *)
Theorem table_after_cursor_counts
  (self : FireboltAutoCompleter) (before after : str) (d : row) :
  In d (column_names self) ->
  str_in (tb_name d) after = true ->
  let document := {| text := before ++ after; cursor_position := len before |} in
  current_word document = extract_last_word before /\
  In (column_name d,
      lit "COLUMN (" ++ column_type d ++ lit ", " ++ tb_name d ++ lit ")")
     (current_suggestions self document).
Proof.
intros Hd Hin document. split.
- unfold current_word, text_before_cursor, document. cbn [text cursor_position].
  now rewrite slice_to_app.
- unfold current_suggestions, column_suggestions. apply in_or_app. right.
  apply in_map_iff. exists d. split; [reflexivity|].
  apply filter_In. split; [exact Hd|]. cbn [text document].
  rewrite <- (app_nil_r after). now apply str_in_extend.
Qed.

(** X12.  With the cursor right after a delimiter nothing is yielded and the
    call ends without an exception, and likewise with the cursor at the
    start of the text. *)
Theorem no_completions_after_delimiter
  (self : FireboltAutoCompleter) (before after : str) (d : char) :
  is_delimiter d = true ->
  get_completions {| text := (before ++ [d]) ++ after;
                     cursor_position := len (before ++ [d]) |} self
  = (([], Return tt), self) /\
  get_completions {| text := after; cursor_position := 0 |} self
  = (([], Return tt), self).
Proof.
intros Hd. split.
- rewrite get_completions_run. unfold current_word, text_before_cursor.
  cbn [text cursor_position]. rewrite slice_to_app.
  rewrite (extract_last_word_after_delimiter before [] d Hd) by (intros c []).
  reflexivity.
- rewrite get_completions_run. unfold current_word, text_before_cursor.
  cbn [text cursor_position]. now rewrite slice_to_zero.
Qed.

(** X20.  How a call ends.  It raises exactly when the upper-cased current
    word is not empty and [HTML] refuses the display of some matching
    candidate; it then has yielded the matching candidates that come
    before the first refused one.  It never raises a FireboltError.  With
    an empty current word, or when no candidate matches, it yields nothing
    and ends without an exception. *)
Theorem get_completions_ending (self : FireboltAutoCompleter) (document : Document) :
  let last_word := upper (current_word document) in
  let matching := filter (matches last_word) (current_suggestions self document) in
  (ending_of self document = Raise OtherException <->
   last_word <> [] /\
   exists s, In s matching /\ accepted (len last_word) s = false) /\
  ending_of self document <> Raise FireboltError /\
  (last_word <> [] ->
   completions_of self document
   = map (render (len last_word)) (take_while (accepted (len last_word)) matching)) /\
  (current_word document = [] ->
   get_completions document self = (([], Return tt), self)) /\
  (matching = [] ->
   get_completions document self = (([], Return tt), self)).
Proof.
intros last_word matching.
assert (Hall : forallb (accepted (len last_word)) matching = false <->
               exists s, In s matching /\ accepted (len last_word) s = false).
{ split.
  - intros H. induction matching as [|s l IH]; [discriminate|].
    cbn [forallb] in H. destruct (accepted (len last_word) s) eqn:E.
    + destruct (IH H) as (s' & Hs' & Ha). exists s'. split; [now right | exact Ha].
    + exists s. split; [now left | exact E].
  - intros (s & Hs & Ha). destruct (forallb _ matching) eqn:E; [|reflexivity].
    rewrite forallb_forall in E. rewrite (E s Hs) in Ha. discriminate. }
split; [|split; [|split; [|split]]].
- rewrite ending_of_eq. cbv zeta. fold last_word. fold matching.
  destruct (Z.eqb_spec (len last_word) 0) as [E|E].
  + apply len_zero_iff in E. split; [discriminate|]. intros [H _]. contradiction.
  + split.
    * intros H. split; [intros E'; apply E; now rewrite E'|].
      apply Hall. destruct (forallb _ matching); [discriminate | reflexivity].
    * intros [_ H]. apply Hall in H. now rewrite H.
- rewrite ending_of_eq. cbv zeta.
  destruct (len (upper (current_word document)) =? 0); [discriminate|].
  destruct (forallb _ _); discriminate.
- intros Hn. rewrite completions_of_eq. cbv zeta. fold last_word. fold matching.
  destruct (Z.eqb_spec (len last_word) 0) as [E|E]; [|reflexivity].
  apply len_zero_iff in E. contradiction.
- intros Hw. rewrite get_completions_run. cbv zeta. rewrite Hw. reflexivity.
- intros Hm. rewrite get_completions_run. cbv zeta. fold last_word. fold matching.
  rewrite Hm. now destruct (len last_word =? 0).
Qed.

(** X21.  The prefix law of a call that ends without an exception: with a
    non-empty current word, a candidate of the universe is among the
    completions exactly when its upper-cased label starts with the
    upper-cased word. *)
Theorem prefix_law_when_completed {L : PythonLaws P}
  (self : FireboltAutoCompleter) (document : Document) (label meta : str) :
  current_word document <> [] ->
  ending_of self document = Return tt ->
  In (label, meta) (current_suggestions self document) ->
  (In (render (len (upper (current_word document))) (label, meta))
      (completions_of self document)
   <-> startswith (upper label) (upper (current_word document)) = true).
Proof.
intros Hw He Hin. split.
- intros H.
  destruct (completions_of_In self document _ H) as (_ & [label' meta'] & _ & Hm & _ & E).
  apply (f_equal completion_text) in E. cbn [render completion_text fst] in E.
  subst label'. exact Hm.
- intros Hm. exact (matching_candidate_rendered self document (label, meta) Hw He Hin Hm).
Qed.

End Matcher.

(** * Further properties of the loader and of a session *)

Section Session.
Context {P : Python} {K : Keywords} {T : PromptToolkit}.

Lemma table_suggestions_meta (tables : list str) (s : str * str) :
  In s (table_suggestions tables) -> snd s = lit "TABLE" /\ In (fst s) tables.
Proof.
unfold table_suggestions. rewrite in_map_iff. intros (t & <- & Ht). now split.
Qed.

(** X13.  The loader never removes or reorders a suggestion: from any state and
    with any cursor it leaves the catalog extended by TABLE entries only,
    leaves the rows as they were or replaces them by the rows fetched, and
    never lets a FireboltError out. *)
Theorem loader_only_appends_tables (cursor : Cursor) (self : FireboltAutoCompleter) :
  exists extra,
    suggestions (snd (populate_table_and_column_names cursor self))
    = suggestions self ++ extra /\
    (forall s, In s extra -> snd s = lit "TABLE") /\
    (column_names (snd (populate_table_and_column_names cursor self))
     = column_names self \/
     query_outcome cursor metadata_query
     = Return (column_names (snd (populate_table_and_column_names cursor self)))) /\
    fst (populate_table_and_column_names cursor self) <> Raise FireboltError.
Proof.
rewrite populate_run.
destruct (query_outcome cursor metadata_query) as [data|[|]]; cbn [fst snd suggestions column_names].
- exists (table_suggestions (set_to_list (map tb_name data))).
  split; [reflexivity|]. split; [|split; [right; reflexivity | discriminate]].
  intros s Hs. apply (table_suggestions_meta _ s Hs).
- exists []. split; [symmetry; apply app_nil_r|].
  split; [intros s []|]. split; [left; reflexivity | discriminate].
- exists []. split; [symmetry; apply app_nil_r|].
  split; [intros s []|]. split; [left; reflexivity | discriminate].
Qed.

(** X14.  A query that succeeds with no row leaves the catalog as it is and the
    index empty: after it the object is as constructed, as after a failed
    load. *)
Theorem empty_result_load {L : PythonLaws P}
  (cursor : Cursor) (self : FireboltAutoCompleter) :
  query_outcome cursor metadata_query = Return [] ->
  populate_table_and_column_names cursor self
  = (Return tt, {| column_names := []; suggestions := suggestions self |}) /\
  after_load cursor = __init__.
Proof.
intros Hq.
assert (E : forall s, populate_table_and_column_names cursor s
                      = (Return tt, {| column_names := []; suggestions := suggestions s |})).
{ intros s. rewrite populate_run, Hq. cbn [map]. rewrite set_to_list_nil.
  cbn [table_suggestions map]. now rewrite app_nil_r. }
split; [apply E|]. unfold after_load. rewrite E. reflexivity.
Qed.

(** X15.  The loader is not idempotent: run again on the object it has loaded,
    with the same rows, it keeps the rows and appends the TABLE entries a
    second time, so that the catalog grows. *)
Theorem second_load_duplicates_tables {L : PythonLaws P}
  (cursor : Cursor) (data : list row) :
  query_outcome cursor metadata_query = Return data ->
  data <> [] ->
  let once := after_load cursor in
  let twice := snd (populate_table_and_column_names cursor once) in
  column_names twice = column_names once /\
  suggestions twice
  = suggestions once ++ table_suggestions (set_to_list (map tb_name data)) /\
  (List.length (suggestions once) < List.length (suggestions twice))%nat.
Proof.
intros Hq Hd once twice. unfold twice, once, after_load.
rewrite !populate_run, Hq. cbn [fst snd column_names suggestions].
split; [reflexivity|]. split; [reflexivity|].
rewrite (length_app (_ ++ _)).
assert (Hn : table_suggestions (set_to_list (map tb_name data)) <> []).
{ destruct data as [|d data]; [contradiction|].
  assert (Hin : In (tb_name d) (set_to_list (map tb_name (d :: data))))
    by (apply set_to_list_In; left; reflexivity).
  destruct (set_to_list (map tb_name (d :: data))); [destruct Hin | discriminate]. }
destruct (table_suggestions (set_to_list (map tb_name data))); [contradiction|].
cbn [List.length]. lia.
Qed.

(** X16.  In a session every completion is of one of four kinds: a keyword, a
    function, a table of the loaded rows, or a column of a loaded row
    whose table the text names, with the detail built from that row. *)
Theorem completion_kinds {L : PythonLaws P}
  (self : FireboltAutoCompleter) (document : Document) (c : Completion) :
  session_state self ->
  In c (completions_of self document) ->
  (display_meta c = lit "KEYWORD" /\ In (completion_text c) KEYWORDS) \/
  (display_meta c = lit "FUNCTION" /\ In (completion_text c) FUNCTIONS) \/
  (display_meta c = lit "TABLE" /\
   exists d, In d (column_names self) /\ tb_name d = completion_text c) \/
  (exists d, In d (column_names self) /\
             str_in (tb_name d) (text document) = true /\
             completion_text c = column_name d /\
             display_meta c
             = lit "COLUMN (" ++ column_type d ++ lit ", " ++ tb_name d ++ lit ")").
Proof.
intros Hs Hc.
destruct (completions_of_In self document c Hc)
  as (_ & [label meta] & Hin & _ & _ & ->).
clear Hc. cbn [render completion_text display_meta fst snd].
destruct (session_state_suggestions self Hs) as (tables & pending & Ht & Hsug).
unfold current_suggestions in Hin. rewrite Hsug in Hin.
unfold static_suggestions in Hin.
apply in_app_or in Hin as [Hin|Hin]; [apply in_app_or in Hin as [Hin|Hin];
                                       [apply in_app_or in Hin as [Hin|Hin]|]|].
- left. apply in_map_iff in Hin as (x & E & Hx). injection E as -> <-.
  split; [reflexivity | exact Hx].
- right; left. apply in_map_iff in Hin as (x & E & Hx). injection E as -> <-.
  split; [reflexivity | exact Hx].
- right; right; left. apply table_suggestions_meta in Hin as [Hm Hl].
  cbn [fst snd] in Hm, Hl. split; [exact Hm|].
  assert (Hall : In label (set_to_list (map tb_name (column_names self))))
    by (rewrite Ht; apply in_or_app; now left).
  apply set_to_list_In, in_map_iff in Hall as (d & Hd & Hin). exists d. split; auto.
- right; right; right. unfold column_suggestions in Hin.
  apply in_map_iff in Hin as (d & E & Hd). apply filter_In in Hd as [Hd Hin].
  injection E as <- <-. exists d. repeat split; assumption.
Qed.

Lemma extract_last_word_is_suffix (t : str) :
  exists pre, t = pre ++ extract_last_word t.
Proof.
destruct (last_delimiter_split t) as [Hfree | (pre & d & suf & -> & Hd & Hsuf)].
- exists []. now rewrite extract_last_word_no_delimiter.
- exists (pre ++ [d]). rewrite extract_last_word_after_delimiter by assumption.
  now rewrite <- app_assoc.
Qed.

(** X17.  When upper-casing keeps the length of the current word (one code point
    for each of its code points, as for every ASCII word), the start
    position of a completion designates exactly the current word: the
    characters from there to the cursor are the word. *)
Theorem start_position_covers_word
  (self : FireboltAutoCompleter) (document : Document) (c : Completion) :
  (forall ch, In ch (current_word document) ->
              List.length (upper_char ch) = 1%nat) ->
  In c (completions_of self document) ->
  start_position c = - len (current_word document) /\
  slice_from (text_before_cursor document)
             (len (text_before_cursor document) + start_position c)
  = current_word document.
Proof.
intros Hu Hc.
destruct (completions_of_In self document c Hc) as (_ & s & _ & _ & _ & ->).
clear Hc. cbn [render start_position].
rewrite (len_upper_same _ Hu). split; [reflexivity|].
unfold current_word.
destruct (extract_last_word_is_suffix (text_before_cursor document)) as [pre E].
rewrite E at 1 2. rewrite len_app.
replace (len pre + len (extract_last_word (text_before_cursor document))
         + - len (extract_last_word (text_before_cursor document)))
  with (len pre) by lia.
apply slice_from_app.
Qed.

Lemma upper_prefix_split (label last_word : str) :
  (forall ch, In ch label -> List.length (upper_char ch) = 1%nat) ->
  startswith (upper label) last_word = true ->
  exists a b, label = a ++ b /\ upper a = last_word /\ len a = len last_word.
Proof.
revert last_word. induction label as [|ch l IH]; intros lw Hu Hs.
- destruct lw; [|discriminate]. now exists [], [].
- destruct lw as [|x lw]; [now exists [], (ch :: l)|].
  change (upper (ch :: l)) with (upper_char ch ++ upper l) in Hs.
  pose proof (Hu ch (or_introl eq_refl)) as H1.
  destruct (upper_char ch) as [|u [|? ?]] eqn:Eu; try discriminate.
  cbn [app startswith] in Hs. apply andb_true_iff in Hs as [Hx Hs].
  apply char_eqb_eq in Hx. subst x.
  destruct (IH lw (fun c H => Hu c (or_intror H)) Hs) as (a & b & -> & Ha & Hl).
  exists (ch :: a), b. split; [reflexivity|]. split.
  + change (upper (ch :: a)) with (upper_char ch ++ upper a). now rewrite Eu, Ha.
  + rewrite !len_cons. lia.
Qed.

(** X18.  When upper-casing maps each code point of the label to one code point,
    the emphasised part of the display is the beginning of the label that
    equals the typed word up to case, and the rest of the label follows
    the closing tags, escaped. *)
Theorem display_emphasises_typed_prefix
  (self : FireboltAutoCompleter) (document : Document) (c : Completion) :
  (forall ch, In ch (completion_text c) -> List.length (upper_char ch) = 1%nat) ->
  In c (completions_of self document) ->
  exists a b,
    completion_text c = a ++ b /\
    upper a = upper (current_word document) /\
    display c
    = lit "<b><style color='red'>" ++ a ++ lit "</style></b>" ++ escape b.
Proof.
intros Hu Hc.
destruct (completions_of_In self document c Hc)
  as (_ & [label meta] & _ & Hm & _ & ->).
clear Hc. cbn [render completion_text display fst] in Hu |- *.
unfold matches in Hm. cbn [fst] in Hm.
destruct (upper_prefix_split label _ Hu Hm) as (a & b & -> & Ha & Hl).
exists a, b. split; [reflexivity|]. split; [exact Ha|].
rewrite <- Hl. apply markup_split.
Qed.

(** X19.  A candidate is offered as soon as a beginning of its label is typed,
    in any letter case: when the text up to the cursor is empty or ends
    with a delimiter, and is followed by a non-empty word without
    delimiter that equals a beginning of the label up to case, the
    candidate is among the completions of a call that ends without an
    exception. *)
Theorem candidate_offered_for_typed_prefix {L : PythonLaws P}
  (self : FireboltAutoCompleter) (before typed beginning rest meta : str) :
  typed <> [] ->
  (forall c, In c typed -> is_delimiter c = false) ->
  (before = [] \/ exists p d, before = p ++ [d] /\ is_delimiter d = true) ->
  upper beginning = upper typed ->
  In (beginning ++ rest, meta)
     (current_suggestions self (document_at_end (before ++ typed))) ->
  ending_of self (document_at_end (before ++ typed)) = Return tt ->
  In (render (len (upper typed)) (beginning ++ rest, meta))
     (completions_of self (document_at_end (before ++ typed))).
Proof.
intros Hn Hfree Hb Hu Hin He.
assert (Ew : current_word (document_at_end (before ++ typed)) = typed).
{ unfold current_word. rewrite text_before_cursor_at_end.
  destruct Hb as [-> | (p & d & -> & Hd)].
  - now apply extract_last_word_no_delimiter.
  - rewrite <- app_assoc. cbn [app].
    now apply extract_last_word_after_delimiter. }
rewrite <- Ew at 1.
apply matching_candidate_rendered.
- rewrite Ew. exact Hn.
- exact He.
- exact Hin.
- rewrite Ew. cbn [fst]. rewrite upper_app, Hu. apply startswith_app.
Qed.

End Session.

(** * The further properties at work *)

Lemma completions_sound_witness :
  In (render 2 (lit "USE", lit "KEYWORD"))
     (completions_of __init__ (document_at_end (lit "us"))) /\
  start_position (render 2 (lit "USE", lit "KEYWORD")) < 0.
Proof.
assert (H : In (render 2 (lit "USE", lit "KEYWORD"))
               (completions_of __init__ (document_at_end (lit "us"))))
  by (vm_compute; left; reflexivity).
split; [exact H|].
exact (proj1 (proj2 (proj2 (proj2 (proj2
         (completions_sound __init__ (document_at_end (lit "us")) _ H)))))).
Defined.

Lemma typing_narrows_completions_witness :
  current_word (document_at_end (lit "u")) <> [] /\
  current_word (document_at_end (lit "us"))
  = current_word (document_at_end (lit "u")) ++ lit "s" /\
  ending_of __init__ (document_at_end (lit "u")) = Return tt /\
  In (render 2 (lit "USE", lit "KEYWORD"))
     (completions_of __init__ (document_at_end (lit "us"))) /\
  exists c', In c' (completions_of __init__ (document_at_end (lit "u"))) /\
             completion_text c' = completion_text (render 2 (lit "USE", lit "KEYWORD")) /\
             display_meta c' = display_meta (render 2 (lit "USE", lit "KEYWORD")).
Proof.
assert (Hw : current_word (document_at_end (lit "u")) <> [])
  by (intros H; vm_compute in H; discriminate H).
assert (Ht : current_word (document_at_end (lit "us"))
             = current_word (document_at_end (lit "u")) ++ lit "s")
  by (vm_compute; reflexivity).
assert (Hc : column_suggestions __init__ (document_at_end (lit "us"))
             = column_suggestions __init__ (document_at_end (lit "u")))
  by (vm_compute; reflexivity).
assert (He : ending_of __init__ (document_at_end (lit "u")) = Return tt)
  by (vm_compute; reflexivity).
assert (H : In (render 2 (lit "USE", lit "KEYWORD"))
               (completions_of __init__ (document_at_end (lit "us"))))
  by (vm_compute; left; reflexivity).
split; [exact Hw|]. split; [exact Ht|]. split; [exact He|]. split; [exact H|].
exact (typing_narrows_completions __init__ (document_at_end (lit "u"))
         (document_at_end (lit "us")) (lit "s") _ Hw Ht Hc He H).
Defined.

Lemma column_suggestions_grow_with_text_witness :
  text (document_at_end (lit "FROM users u"))
  = lit "FROM " ++ text (document_at_end (lit "users")) ++ lit " u" /\
  In (lit "id", lit "COLUMN (int, users)")
     (column_suggestions (after_load (cursor_returning users_rows))
                         (document_at_end (lit "users"))) /\
  In (lit "id", lit "COLUMN (int, users)")
     (column_suggestions (after_load (cursor_returning users_rows))
                         (document_at_end (lit "FROM users u"))).
Proof.
assert (Ht : text (document_at_end (lit "FROM users u"))
             = lit "FROM " ++ text (document_at_end (lit "users")) ++ lit " u")
  by (vm_compute; reflexivity).
assert (H : In (lit "id", lit "COLUMN (int, users)")
               (column_suggestions (after_load (cursor_returning users_rows))
                                   (document_at_end (lit "users"))))
  by (vm_compute; left; reflexivity).
split; [exact Ht|]. split; [exact H|].
exact (column_suggestions_grow_with_text _ _ _ _ _ _ Ht H).
Defined.

Lemma no_table_named_no_columns_witness :
  (forall d, In d (column_names (after_load (cursor_returning users_rows))) ->
             str_in (tb_name d) (text (document_at_end (lit "us"))) = false) /\
  current_suggestions (after_load (cursor_returning users_rows))
                      (document_at_end (lit "us"))
  = suggestions (after_load (cursor_returning users_rows)).
Proof.
assert (H : forall d, In d (column_names (after_load (cursor_returning users_rows))) ->
                      str_in (tb_name d) (text (document_at_end (lit "us"))) = false).
{ intros d Hd. vm_compute in Hd. destruct Hd as [<-|[]]. vm_compute. reflexivity. }
split; [exact H|].
exact (proj1 (no_table_named_no_columns _ _ H)).
Defined.

Lemma table_after_cursor_counts_witness :
  In (lit "users", lit "id", lit "int")
     (column_names (after_load (cursor_returning users_rows))) /\
  str_in (tb_name (lit "users", lit "id", lit "int")) (lit " FROM users") = true /\
  current_word {| text := lit "SELECT i" ++ lit " FROM users";
                  cursor_position := len (lit "SELECT i") |}
  = extract_last_word (lit "SELECT i").
Proof.
assert (Hd : In (lit "users", lit "id", lit "int")
                (column_names (after_load (cursor_returning users_rows))))
  by (vm_compute; left; reflexivity).
assert (Hin : str_in (tb_name (lit "users", lit "id", lit "int")) (lit " FROM users")
              = true)
  by (vm_compute; reflexivity).
split; [exact Hd|]. split; [exact Hin|].
exact (proj1 (table_after_cursor_counts (after_load (cursor_returning users_rows))
                (lit "SELECT i") (lit " FROM users") _ Hd Hin)).
Defined.

Lemma no_completions_after_delimiter_witness :
  is_delimiter 32%N = true /\
  get_completions {| text := (lit "SELECT" ++ [32%N]) ++ lit "";
                     cursor_position := len (lit "SELECT" ++ [32%N]) |}
                  (after_load (cursor_returning users_rows))
  = (([], Return tt), after_load (cursor_returning users_rows)).
Proof.
assert (Hd : is_delimiter 32%N = true) by (vm_compute; reflexivity).
split; [exact Hd|].
exact (proj1 (no_completions_after_delimiter
                (after_load (cursor_returning users_rows))
                (lit "SELECT") (lit "") 32%N Hd)).
Defined.

Lemma empty_result_load_witness :
  query_outcome (cursor_returning []) metadata_query = Return [] /\
  after_load (cursor_returning []) = __init__.
Proof.
split; [reflexivity|].
exact (proj2 (empty_result_load (cursor_returning []) __init__ eq_refl)).
Defined.

Lemma second_load_duplicates_tables_witness :
  query_outcome (cursor_returning users_rows) metadata_query = Return users_rows /\
  users_rows <> [] /\
  suggestions (snd (populate_table_and_column_names
                      (cursor_returning users_rows)
                      (after_load (cursor_returning users_rows))))
  = suggestions (after_load (cursor_returning users_rows))
    ++ table_suggestions (set_to_list (map tb_name users_rows)).
Proof.
assert (Hd : users_rows <> []) by discriminate.
split; [reflexivity|]. split; [exact Hd|].
exact (proj1 (proj2 (second_load_duplicates_tables
                       (cursor_returning users_rows) users_rows eq_refl Hd))).
Defined.

Lemma completion_kinds_witness :
  session_state (after_load (cursor_returning users_rows)) /\
  In (render 1 (lit "users", lit "TABLE"))
     (completions_of (after_load (cursor_returning users_rows))
                     (document_at_end (lit "u"))) /\
  exists d, In d (column_names (after_load (cursor_returning users_rows))) /\
            tb_name d = lit "users".
Proof.
assert (Hs : session_state (after_load (cursor_returning users_rows)))
  by apply session_loaded.
assert (Hc : In (render 1 (lit "users", lit "TABLE"))
                (completions_of (after_load (cursor_returning users_rows))
                                (document_at_end (lit "u"))))
  by (vm_compute; right; right; right; left; reflexivity).
split; [exact Hs|]. split; [exact Hc|].
destruct (completion_kinds _ _ _ Hs Hc) as [[E _]|[[E _]|[[_ H]|(d & _ & _ & _ & E)]]].
- vm_compute in E. discriminate E.
- vm_compute in E. discriminate E.
- exact H.
- vm_compute in E. discriminate E.
Defined.

Lemma start_position_covers_word_witness :
  (forall ch, In ch (current_word (document_at_end (lit "SELECT id FROM users WHERE i"))) ->
              List.length (upper_char ch) = 1%nat) /\
  In (render 1 (lit "id", lit "COLUMN (int, users)"))
     (completions_of (after_load (cursor_returning users_rows))
                     (document_at_end (lit "SELECT id FROM users WHERE i"))) /\
  start_position (render 1 (lit "id", lit "COLUMN (int, users)"))
  = - len (current_word (document_at_end (lit "SELECT id FROM users WHERE i"))).
Proof.
assert (Hu : forall ch,
           In ch (current_word (document_at_end (lit "SELECT id FROM users WHERE i"))) ->
           List.length (upper_char ch) = 1%nat).
{ intros ch H. vm_compute in H. destruct H as [<-|[]]. vm_compute. reflexivity. }
assert (Hc : In (render 1 (lit "id", lit "COLUMN (int, users)"))
                (completions_of (after_load (cursor_returning users_rows))
                                (document_at_end (lit "SELECT id FROM users WHERE i"))))
  by (vm_compute; left; reflexivity).
split; [exact Hu|]. split; [exact Hc|].
exact (proj1 (start_position_covers_word _ _ _ Hu Hc)).
Defined.

Lemma display_emphasises_typed_prefix_witness :
  (forall ch, In ch (completion_text (render 2 (lit "USE", lit "KEYWORD"))) ->
              List.length (upper_char ch) = 1%nat) /\
  In (render 2 (lit "USE", lit "KEYWORD"))
     (completions_of __init__ (document_at_end (lit "us"))) /\
  exists a b,
    completion_text (render 2 (lit "USE", lit "KEYWORD")) = a ++ b /\
    upper a = upper (current_word (document_at_end (lit "us"))) /\
    display (render 2 (lit "USE", lit "KEYWORD"))
    = lit "<b><style color='red'>" ++ a ++ lit "</style></b>" ++ escape b.
Proof.
assert (Hu : forall ch, In ch (completion_text (render 2 (lit "USE", lit "KEYWORD"))) ->
                        List.length (upper_char ch) = 1%nat).
{ intros ch H. vm_compute in H.
  decompose [or] H; subst; try contradiction; vm_compute; reflexivity. }
assert (Hc : In (render 2 (lit "USE", lit "KEYWORD"))
                (completions_of __init__ (document_at_end (lit "us"))))
  by (vm_compute; left; reflexivity).
split; [exact Hu|]. split; [exact Hc|].
exact (display_emphasises_typed_prefix _ _ _ Hu Hc).
Defined.

Lemma candidate_offered_for_typed_prefix_witness :
  lit "sel" <> [] /\
  (forall c, In c (lit "sel") -> is_delimiter c = false) /\
  upper (lit "SEL") = upper (lit "sel") /\
  In (lit "SEL" ++ lit "ECT", lit "KEYWORD")
     (current_suggestions __init__ (document_at_end (lit "(" ++ lit "sel"))) /\
  ending_of __init__ (document_at_end (lit "(" ++ lit "sel")) = Return tt /\
  In (render (len (upper (lit "sel"))) (lit "SEL" ++ lit "ECT", lit "KEYWORD"))
     (completions_of __init__ (document_at_end (lit "(" ++ lit "sel"))).
Proof.
assert (Hn : lit "sel" <> []) by discriminate.
assert (Hfree : forall c, In c (lit "sel") -> is_delimiter c = false).
{ intros c H. vm_compute in H.
  decompose [or] H; subst; try contradiction; vm_compute; reflexivity. }
assert (Hb : lit "(" = [] \/ exists p d, lit "(" = p ++ [d] /\ is_delimiter d = true).
{ right. exists [], 40%N. split; vm_compute; reflexivity. }
assert (Hu : upper (lit "SEL") = upper (lit "sel")) by (vm_compute; reflexivity).
assert (Hin : In (lit "SEL" ++ lit "ECT", lit "KEYWORD")
                 (current_suggestions __init__ (document_at_end (lit "(" ++ lit "sel"))))
  by (vm_compute; left; reflexivity).
assert (He : ending_of __init__ (document_at_end (lit "(" ++ lit "sel")) = Return tt)
  by (vm_compute; reflexivity).
split; [exact Hn|]. split; [exact Hfree|]. split; [exact Hu|]. split; [exact Hin|].
split; [exact He|].
exact (candidate_offered_for_typed_prefix __init__ (lit "(") (lit "sel") (lit "SEL")
         (lit "ECT") (lit "KEYWORD") Hn Hfree Hb Hu Hin He).
Defined.

Lemma get_completions_ending_witness :
  upper (current_word (document_at_end (lit "r"))) <> [] /\
  In (lit "r&d", lit "TABLE")
     (filter (matches (upper (current_word (document_at_end (lit "r")))))
             (current_suggestions (after_load (cursor_returning ampersand_table_rows))
                                  (document_at_end (lit "r")))) /\
  accepted (len (upper (current_word (document_at_end (lit "r")))))
           (lit "r&d", lit "TABLE") = false /\
  ending_of (after_load (cursor_returning ampersand_table_rows))
            (document_at_end (lit "r")) = Raise OtherException.
Proof.
assert (Hw : upper (current_word (document_at_end (lit "r"))) <> [])
  by (intros H; vm_compute in H; discriminate H).
assert (Hin : In (lit "r&d", lit "TABLE")
                 (filter (matches (upper (current_word (document_at_end (lit "r")))))
                    (current_suggestions
                       (after_load (cursor_returning ampersand_table_rows))
                       (document_at_end (lit "r")))))
  by (vm_compute; left; reflexivity).
assert (Ha : accepted (len (upper (current_word (document_at_end (lit "r")))))
                      (lit "r&d", lit "TABLE") = false)
  by (vm_compute; reflexivity).
split; [exact Hw|]. split; [exact Hin|]. split; [exact Ha|].
exact (proj2 (proj1 (get_completions_ending
                       (after_load (cursor_returning ampersand_table_rows))
                       (document_at_end (lit "r"))))
         (conj Hw (ex_intro _ (lit "r&d", lit "TABLE") (conj Hin Ha)))).
Defined.

Lemma prefix_law_when_completed_witness :
  current_word (document_at_end (lit "us")) <> [] /\
  ending_of __init__ (document_at_end (lit "us")) = Return tt /\
  In (lit "USE", lit "KEYWORD")
     (current_suggestions __init__ (document_at_end (lit "us"))) /\
  In (render 2 (lit "USE", lit "KEYWORD"))
     (completions_of __init__ (document_at_end (lit "us"))).
Proof.
assert (Hw : current_word (document_at_end (lit "us")) <> [])
  by (intros H; vm_compute in H; discriminate H).
assert (He : ending_of __init__ (document_at_end (lit "us")) = Return tt)
  by (vm_compute; reflexivity).
assert (Hin : In (lit "USE", lit "KEYWORD")
                 (current_suggestions __init__ (document_at_end (lit "us"))))
  by (vm_compute; right; left; reflexivity).
split; [exact Hw|]. split; [exact He|]. split; [exact Hin|].
pose proof (proj2 (prefix_law_when_completed __init__ (document_at_end (lit "us"))
                     (lit "USE") (lit "KEYWORD") Hw He Hin)) as H.
vm_compute in H. vm_compute. exact (H eq_refl).
Defined.
